(** * HITL decision coordinator and workflow gates of the stock advisor

    A shallow embedding of
    - [src/agents/hitl_manager.py] (classes [HITLStatus], [HITLDecision],
      [HITLManager]),
    - the gate of [src/agents/hitl_portfolio_optimizer.py]
      ([_create_hitl_graph], [_check_hitl_decision]),
    - the input step of [src/agents/portfolio_optimizer_react/agent.py]
      ([_analyze_inputs]),
    followed by the properties of these functions.

    Conventions.
    - A Python [dict] keyed by decision id is a [gmap string _]; the order
      in which a dict enumerates its values is not modelled.
    - [datetime.now()] and [uuid.uuid4()] read the environment: every
      reading is an explicit argument of the operation that makes it, named
      after the use the source makes of it.
    - A method of [HITLManager] is a computation in the state monad [M]
      over the fields of the manager.  [_save_data] only writes the two
      JSON files and swallows every exception; it reads the in-memory
      fields and changes none, so it leaves no trace in [M].
    - [HITLDecision.callback] is [None] for every decision the manager
      builds ([create_decision] and [from_dict] never pass one), so the
      [if decision.callback:] blocks never run and the field is left out. *)

From Stdlib Require Import ZArith QArith String List.
From stdpp Require Import gmap strings list pretty.

Open Scope string_scope.
Open Scope nat_scope.

(** ** Data model *)

(** [class HITLStatus(str, Enum)] *)
Inductive HITLStatus : Type :=
| PENDING
| APPROVED
| REJECTED
| TIMEOUT
| BYPASSED.

(** The [str] value of each member. *)
Definition HITLStatus_value (st : HITLStatus) : string :=
  match st with
  | PENDING => "pending"
  | APPROVED => "approved"
  | REJECTED => "rejected"
  | TIMEOUT => "timeout"
  | BYPASSED => "bypassed"
  end.

#[global] Instance HITLStatus_eq_dec : EqDecision HITLStatus.
Proof. solve_decision. Defined.

(** A point in time, as [datetime.now()] returns it. *)
Definition datetime : Type := Z.

(** [decision_data : Dict[str, Any]]: stored and copied, never inspected. *)
Definition payload : Type := list (string * string).

(** [class HITLDecision] *)
Record HITLDecision : Type := mkHITLDecision {
  decision_id : string;
  agent_id : string;
  decision_type : string;
  decision_data : payload;
  description : string;
  created_at : datetime;
  status : HITLStatus;
  user_id : string;
  timeout_seconds : Z;
  resolved_at : option datetime;
  resolution_reason : option string;
  user_comments : option string
}.

(** [HITLDecision.__init__]; [now] is the reading of [datetime.now()] taken
    for [created_at], which no caller in the manager passes. *)
Definition HITLDecision_init (decision_id agent_id decision_type : string)
    (decision_data : payload) (description : string) (status : HITLStatus)
    (user_id : string) (timeout_seconds : Z) (now : datetime) : HITLDecision :=
  {| decision_id := decision_id;
     agent_id := agent_id;
     decision_type := decision_type;
     decision_data := decision_data;
     description := description;
     created_at := now;
     status := status;
     user_id := user_id;
     timeout_seconds := timeout_seconds;
     resolved_at := None;
     resolution_reason := None;
     user_comments := None |}.

(** Attribute assignments [decision.status = ...] and the like. *)
Definition set_status (v : HITLStatus) (d : HITLDecision) : HITLDecision :=
  mkHITLDecision (decision_id d) (agent_id d) (decision_type d)
    (decision_data d) (description d) (created_at d) v (user_id d)
    (timeout_seconds d) (resolved_at d) (resolution_reason d)
    (user_comments d).

Definition set_resolved_at (v : option datetime) (d : HITLDecision)
    : HITLDecision :=
  mkHITLDecision (decision_id d) (agent_id d) (decision_type d)
    (decision_data d) (description d) (created_at d) (status d) (user_id d)
    (timeout_seconds d) v (resolution_reason d) (user_comments d).

Definition set_resolution_reason (v : option string) (d : HITLDecision)
    : HITLDecision :=
  mkHITLDecision (decision_id d) (agent_id d) (decision_type d)
    (decision_data d) (description d) (created_at d) (status d) (user_id d)
    (timeout_seconds d) (resolved_at d) v (user_comments d).

Definition set_user_comments (v : option string) (d : HITLDecision)
    : HITLDecision :=
  mkHITLDecision (decision_id d) (agent_id d) (decision_type d)
    (decision_data d) (description d) (created_at d) (status d) (user_id d)
    (timeout_seconds d) (resolved_at d) (resolution_reason d) v.

(** The dictionary [to_dict] builds, with the key ["timestamp"] that
    [_add_to_history] adds to its copy ([None]: key absent).  Dates are kept
    as [datetime] values where the source stores their [isoformat()]. *)
Record DecisionDict : Type := mkDecisionDict {
  k_decision_id : string;
  k_agent_id : string;
  k_decision_type : string;
  k_decision_data : payload;
  k_description : string;
  k_created_at : datetime;
  k_status : HITLStatus;
  k_user_id : string;
  k_timeout_seconds : Z;
  k_resolved_at : option datetime;
  k_resolution_reason : option string;
  k_user_comments : option string;
  k_timestamp : option datetime
}.

(** [HITLDecision.to_dict] *)
Definition to_dict (d : HITLDecision) : DecisionDict :=
  {| k_decision_id := decision_id d;
     k_agent_id := agent_id d;
     k_decision_type := decision_type d;
     k_decision_data := decision_data d;
     k_description := description d;
     k_created_at := created_at d;
     k_status := status d;
     k_user_id := user_id d;
     k_timeout_seconds := timeout_seconds d;
     k_resolved_at := resolved_at d;
     k_resolution_reason := resolution_reason d;
     k_user_comments := user_comments d;
     k_timestamp := None |}.

(** [history_entry["timestamp"] = ...] *)
Definition set_timestamp (t : datetime) (e : DecisionDict) : DecisionDict :=
  mkDecisionDict (k_decision_id e) (k_agent_id e) (k_decision_type e)
    (k_decision_data e) (k_description e) (k_created_at e) (k_status e)
    (k_user_id e) (k_timeout_seconds e) (k_resolved_at e)
    (k_resolution_reason e) (k_user_comments e) (Some t).

(** The in-memory fields of [class HITLManager]. *)
Record HITLManager : Type := mkHITLManager {
  pending_decisions : gmap string HITLDecision;
  resolved_decisions : gmap string HITLDecision;
  decision_history : list DecisionDict;
  global_autonomous_mode : bool;
  agent_hitl_overrides : gmap string bool
}.

(** [HITLManager.__init__] before [_load_data], that is with no files. *)
Definition HITLManager_init : HITLManager :=
  {| pending_decisions := ∅;
     resolved_decisions := ∅;
     decision_history := [];
     global_autonomous_mode := false;
     agent_hitl_overrides := ∅ |}.

Definition set_pending_decisions (v : gmap string HITLDecision)
    (s : HITLManager) : HITLManager :=
  mkHITLManager v (resolved_decisions s) (decision_history s)
    (global_autonomous_mode s) (agent_hitl_overrides s).

Definition set_resolved_decisions (v : gmap string HITLDecision)
    (s : HITLManager) : HITLManager :=
  mkHITLManager (pending_decisions s) v (decision_history s)
    (global_autonomous_mode s) (agent_hitl_overrides s).

Definition set_decision_history (v : list DecisionDict) (s : HITLManager)
    : HITLManager :=
  mkHITLManager (pending_decisions s) (resolved_decisions s) v
    (global_autonomous_mode s) (agent_hitl_overrides s).

(** ** The state monad of the manager's methods *)

Definition M (A : Type) : Type := HITLManager → A * HITLManager.

Definition ret {A : Type} (a : A) : M A := λ s, (a, s).
Definition bind {A B : Type} (m : M A) (k : A → M B) : M B :=
  λ s, let '(a, s') := m s in k a s'.

(** Read [self.<field>]. *)
Definition gets {A : Type} (f : HITLManager → A) : M A := λ s, (f s, s).
(** Assign to a field of [self] or mutate it in place. *)
Definition modify (f : HITLManager → HITLManager) : M unit := λ s, (tt, f s).

Notation "'let*' x ':=' m 'in' k" := (bind m (λ x, k))
  (at level 10, x name, m at level 100, k at level 200).
Notation "m1 '>>' m2" := (bind m1 (λ _, m2))
  (at level 62, right associativity).

(** ** Policy *)

(** [HITLManager.set_global_autonomous_mode] *)
Definition set_global_autonomous_mode (enabled : bool) : M unit :=
  modify (λ s, mkHITLManager (pending_decisions s) (resolved_decisions s)
                 (decision_history s) enabled (agent_hitl_overrides s)).

(** [HITLManager.set_agent_hitl_override] *)
Definition set_agent_hitl_override (agent_id : string)
    (override_enabled : bool) : M unit :=
  modify (λ s, mkHITLManager (pending_decisions s) (resolved_decisions s)
                 (decision_history s) (global_autonomous_mode s)
                 (<[agent_id := override_enabled]> (agent_hitl_overrides s))).

(** [HITLManager.is_hitl_required] *)
Definition is_hitl_required (agent_id : string) : M bool :=
  let* autonomous := gets global_autonomous_mode in
  if autonomous then ret false
  else
    let* overrides := gets agent_hitl_overrides in
    ret (default false (overrides !! agent_id)).

(** ** History *)

(** [HITLManager._add_to_history]; [now] is the reading taken for the
    ["timestamp"] key.  [insert(0, _)] puts the entry in front, the slice
    [[:1000]] keeps the first 1000. *)
Definition _add_to_history (decision : HITLDecision) (now : datetime)
    : M unit :=
  let history_entry := set_timestamp now (to_dict decision) in
  modify (λ s, set_decision_history (history_entry :: decision_history s) s) >>
  let* history := gets decision_history in
  if bool_decide (1000 < length history)
  then modify (set_decision_history (take 1000 history))
  else ret tt.

(** ** Creating and resolving decisions *)

(** [HITLManager.create_decision].  [uuid4] is the value of
    [str(uuid.uuid4())]; [now_created] is read by the constructor,
    [now_resolved] and [now_logged] on the bypass branch only.  The task
    the pending branch hands to [asyncio.create_task] runs
    [_handle_timeout] later: its firing is an operation of its own
    ([TimeoutFires] below). *)
Definition create_decision (agent_id decision_type : string)
    (decision_data : payload) (description user_id : string)
    (timeout_seconds : Z) (uuid4 : string)
    (now_created now_resolved now_logged : datetime) : M HITLDecision :=
  let* required := is_hitl_required agent_id in
  if negb required then
    let decision :=
      HITLDecision_init uuid4 agent_id decision_type decision_data
        description BYPASSED user_id timeout_seconds now_created in
    let decision := set_resolved_at (Some now_resolved) decision in
    let decision :=
      set_resolution_reason (Some "Autonomous mode enabled") decision in
    modify (λ s, set_resolved_decisions
                   (<[decision_id decision := decision]>
                      (resolved_decisions s)) s) >>
    _add_to_history decision now_logged >>
    ret decision
  else
    let decision :=
      HITLDecision_init uuid4 agent_id decision_type decision_data
        description PENDING user_id timeout_seconds now_created in
    modify (λ s, set_pending_decisions
                   (<[decision_id decision := decision]>
                      (pending_decisions s)) s) >>
    ret decision.

(** The three assignments and the move from [pending_decisions] to
    [resolved_decisions] that [_handle_timeout], [approve_decision] and
    [reject_decision] each spell out, followed by [_add_to_history]. *)
Definition move_to_resolved (decision_id : string) (decision : HITLDecision)
    (now_logged : datetime) : M unit :=
  modify (λ s, set_resolved_decisions
                 (<[decision_id := decision]> (resolved_decisions s)) s) >>
  modify (λ s, set_pending_decisions
                 (delete decision_id (pending_decisions s)) s) >>
  _add_to_history decision now_logged.

(** [HITLManager._handle_timeout], from the point where
    [asyncio.sleep(timeout_seconds)] has returned. *)
Definition _handle_timeout (decision_id : string) (timeout_seconds : Z)
    (now_resolved now_logged : datetime) : M unit :=
  let* pending := gets pending_decisions in
  match pending !! decision_id with
  | Some decision =>
      let decision := set_status TIMEOUT decision in
      let decision := set_resolved_at (Some now_resolved) decision in
      let decision :=
        set_resolution_reason
          (Some ("Timed out after " +:+ pretty timeout_seconds +:+ " seconds"))
          decision in
      move_to_resolved decision_id decision now_logged
  | None => ret tt
  end.

(** [HITLManager.approve_decision] *)
Definition approve_decision (decision_id : string)
    (user_comments : option string) (now_resolved now_logged : datetime)
    : M bool :=
  let* pending := gets pending_decisions in
  match pending !! decision_id with
  | None => ret false
  | Some decision =>
      let decision := set_status APPROVED decision in
      let decision := set_resolved_at (Some now_resolved) decision in
      let decision :=
        set_resolution_reason (Some "Approved by user") decision in
      let decision := set_user_comments user_comments decision in
      move_to_resolved decision_id decision now_logged >>
      ret true
  end.

(** [HITLManager.reject_decision] *)
Definition reject_decision (decision_id : string)
    (user_comments : option string) (now_resolved now_logged : datetime)
    : M bool :=
  let* pending := gets pending_decisions in
  match pending !! decision_id with
  | None => ret false
  | Some decision =>
      let decision := set_status REJECTED decision in
      let decision := set_resolved_at (Some now_resolved) decision in
      let decision :=
        set_resolution_reason (Some "Rejected by user") decision in
      let decision := set_user_comments user_comments decision in
      move_to_resolved decision_id decision now_logged >>
      ret true
  end.

(** ** Reads *)

(** Python truthiness of an [Optional[str]] argument: [None] and the empty
    string are false. *)
Definition truthy (o : option string) : bool :=
  match o with
  | Some s => negb (bool_decide (s = ""))
  | None => false
  end.

(** [HITLManager.get_pending_decisions] *)
Definition get_pending_decisions (agent : option string)
    : M (list DecisionDict) :=
  let* pending := gets pending_decisions in
  let decisions := (map_to_list pending).*2 in
  let decisions :=
    if truthy agent
    then filter (λ d, Some (agent_id d) = agent) decisions
    else decisions in
  ret (to_dict <$> decisions).

(** [HITLManager.get_decision] *)
Definition get_decision (decision_id : string) : M (option DecisionDict) :=
  let* pending := gets pending_decisions in
  match pending !! decision_id with
  | Some d => ret (Some (to_dict d))
  | None =>
      let* resolved := gets resolved_decisions in
      match resolved !! decision_id with
      | Some d => ret (Some (to_dict d))
      | None => ret None
      end
  end.

(** The slice [l[:limit]]: a negative [limit] counts from the end. *)
Definition slice_to {A : Type} (l : list A) (limit : Z) : list A :=
  if (0 <=? limit)%Z then take (Z.to_nat limit) l
  else take (length l - Z.to_nat (- limit)) l.

(** [HITLManager.get_decision_history] *)
Definition get_decision_history (agent : option string) (limit : Z)
    : M (list DecisionDict) :=
  let* history := gets decision_history in
  let history :=
    if truthy agent
    then filter (λ h, Some (k_agent_id h) = agent) history
    else history in
  ret (slice_to history limit).

(** ** Operations as data, for statements about sequences of calls *)

Inductive Op : Type :=
| Create (agent_id decision_type : string) (decision_data : payload)
    (description user_id : string) (timeout_seconds : Z) (uuid4 : string)
    (now_created now_resolved now_logged : datetime)
| Approve (decision_id : string) (user_comments : option string)
    (now_resolved now_logged : datetime)
| Reject (decision_id : string) (user_comments : option string)
    (now_resolved now_logged : datetime)
| TimeoutFires (decision_id : string) (timeout_seconds : Z)
    (now_resolved now_logged : datetime)
| SetGlobalAutonomous (enabled : bool)
| SetAgentOverride (agent_id : string) (override_enabled : bool).

(** The manager after one call. *)
Definition exec (op : Op) (s : HITLManager) : HITLManager :=
  match op with
  | Create a ty data descr u ts uuid4 t1 t2 t3 =>
      (create_decision a ty data descr u ts uuid4 t1 t2 t3 s).2
  | Approve i c t1 t2 => (approve_decision i c t1 t2 s).2
  | Reject i c t1 t2 => (reject_decision i c t1 t2 s).2
  | TimeoutFires i ts t1 t2 => (_handle_timeout i ts t1 t2 s).2
  | SetGlobalAutonomous b => (set_global_autonomous_mode b s).2
  | SetAgentOverride a b => (set_agent_hitl_override a b s).2
  end.

Fixpoint run (ops : list Op) (s : HITLManager) : HITLManager :=
  match ops with
  | [] => s
  | op :: rest => run rest (exec op s)
  end.

(** [uuid.uuid4()] returns an identifier that is in use nowhere: the id drawn
    by a [Create] is in neither index. *)
Definition unused (i : string) (s : HITLManager) : bool :=
  bool_decide (pending_decisions s !! i = None) &&
  bool_decide (resolved_decisions s !! i = None).

Definition fresh_uuid (op : Op) (s : HITLManager) : bool :=
  match op with
  | Create _ _ _ _ _ _ uuid4 _ _ _ => unused uuid4 s
  | _ => true
  end.

Fixpoint fresh_uuids (ops : list Op) (s : HITLManager) : bool :=
  match ops with
  | [] => true
  | op :: rest => fresh_uuid op s && fresh_uuids rest (exec op s)
  end.

(** What [get_decision] looks at: the pending index first, then the
    resolved one. *)
Definition find_decision (s : HITLManager) (i : string)
    : option HITLDecision :=
  match pending_decisions s !! i with
  | Some d => Some d
  | None => resolved_decisions s !! i
  end.

(** ** The step graph engine

    What the agents use of [langgraph.graph.StateGraph]: named nodes, one
    outgoing edge per node, either [add_edge] or [add_conditional_edges]
    with a routing function and a label map, and the marker [END].  A node
    function that raises is [None]; [fuel] bounds the number of node runs,
    since a graph with a loop-back edge need not finish. *)

Section StateGraph.
Context {Node State : Type}.

Inductive Target : Type :=
| Goto (n : Node)
| END.

Inductive Edge : Type :=
| Direct (target : Target)
| Conditional (path : State → string) (path_map : list (string * Target)).

Inductive Outcome : Type :=
| Finished (st : State)
| Raised
| OutOfFuel.

Fixpoint lookup_label (label : string) (path_map : list (string * Target))
    : option Target :=
  match path_map with
  | [] => None
  | (l, t) :: rest =>
      if bool_decide (l = label) then Some t else lookup_label label rest
  end.

Variable edges : Node → Edge.
Variable node_fn : Node → State → option State.

(** Where the engine goes once node [n] has returned [st]. *)
Definition next_target (n : Node) (st : State) : option Target :=
  match edges n with
  | Direct t => Some t
  | Conditional path path_map => lookup_label (path st) path_map
  end.

(** The run from the edge that leaves [n], [st] being what [n] returned. *)
Fixpoint continue_from (fuel : nat) (n : Node) (st : State) : Outcome :=
  match next_target n st with
  | None => Raised
  | Some END => Finished st
  | Some (Goto m) =>
      match fuel with
      | 0 => OutOfFuel
      | S fuel' =>
          match node_fn m st with
          | None => Raised
          | Some st' => continue_from fuel' m st'
          end
      end
  end.

(** [graph.ainvoke(initial_state)] *)
Definition ainvoke (fuel : nat) (entry : Node) (st : State) : Outcome :=
  match fuel with
  | 0 => OutOfFuel
  | S fuel' =>
      match node_fn entry st with
      | None => Raised
      | Some st' => continue_from fuel' entry st'
      end
  end.
End StateGraph.

Arguments Target : clear implicits.
Arguments Edge : clear implicits.
Arguments Outcome : clear implicits.

(** [langchain_core.messages] *)
Inductive BaseMessage : Type :=
| HumanMessage (content : string)
| AIMessage (content : string).

(** A number of the workflow state ([float] or [int]): a rational.  The
    comparisons of the source are exact on them. *)
Definition number : Type := Q.

Definition lt_number (a b : number) : bool :=
  if Qlt_le_dec a b then true else false.

(** ** [PortfolioOptimizerReActAgent] *)

Module ReAct.

(** [class AgentState(TypedDict)]; [final_portfolio] holds the numeric
    entries of the portfolio dictionary. *)
Record AgentState : Type := mkAgentState {
  messages : list BaseMessage;
  budget : number;
  timeframe : string;
  risk_level : string;
  market_data : payload;
  stock_recommendations : list payload;
  reasoning_trace : list string;
  hitl_approval_required : bool;
  hitl_approved : option bool;
  final_portfolio : gmap string number;
  audit_log : list payload
}.

Definition set_timeframe (v : string) (st : AgentState) : AgentState :=
  mkAgentState (messages st) (budget st) v (risk_level st) (market_data st)
    (stock_recommendations st) (reasoning_trace st)
    (hitl_approval_required st) (hitl_approved st) (final_portfolio st)
    (audit_log st).

Definition set_risk_level (v : string) (st : AgentState) : AgentState :=
  mkAgentState (messages st) (budget st) (timeframe st) v (market_data st)
    (stock_recommendations st) (reasoning_trace st)
    (hitl_approval_required st) (hitl_approved st) (final_portfolio st)
    (audit_log st).

(** [state['reasoning_trace'].append(reasoning)] followed by
    [state['messages'].append(AIMessage(content=reasoning))] *)
Definition narrate (reasoning : string) (st : AgentState) : AgentState :=
  mkAgentState (messages st ++ [AIMessage reasoning]) (budget st)
    (timeframe st) (risk_level st) (market_data st)
    (stock_recommendations st) (reasoning_trace st ++ [reasoning])
    (hitl_approval_required st) (hitl_approved st) (final_portfolio st)
    (audit_log st).

Section Nodes.
(** The rendering [f"{x:,.2f}"] of a number. *)
Variable format_money : number → string.

(** [PortfolioOptimizerReActAgent._analyze_inputs] *)
Definition _analyze_inputs (state : AgentState) : AgentState :=
  let reasoning :=
    "🔍 ANALYZE: Received optimization request with budget=$"
    +:+ format_money (budget state) +:+ ", timeframe=" +:+ timeframe state
    +:+ ", risk_level=" +:+ risk_level state in
  let reasoning :=
    if lt_number (budget state) 1000%Q
    then reasoning
         +:+ " ⚠️ WARNING: Budget below recommended minimum of $1,000"
    else reasoning in
  let '(reasoning, state) :=
    if bool_decide (timeframe state ∉ ["Short"; "Medium"; "Long"])
    then (reasoning +:+ " ⚠️ WARNING: Invalid timeframe '"
          +:+ timeframe state +:+ "', defaulting to 'Medium'",
          set_timeframe "Medium" state)
    else (reasoning, state) in
  let '(reasoning, state) :=
    if bool_decide (risk_level state ∉ ["Low"; "Medium"; "High"])
    then (reasoning +:+ " ⚠️ WARNING: Invalid risk level '"
          +:+ risk_level state +:+ "', defaulting to 'Medium'",
          set_risk_level "Medium" state)
    else (reasoning, state) in
  let reasoning := reasoning +:+ " ✅ Input validation complete" in
  narrate reasoning state.
End Nodes.

Inductive Node : Type :=
| analyze_inputs
| fetch_market_data
| reason_about_strategy
| generate_recommendations
| optimize_portfolio
| hitl_review
| finalize_portfolio
| log_decision.

(** [_should_require_hitl_approval]: the label it returns.  It also
    stores the flag in [state['hitl_approval_required']]; the engine
    reads the label only. *)
Definition _should_require_hitl_approval (state : AgentState) : string :=
  let portfolio := final_portfolio state in
  let risk_score := default 0%Q (portfolio !! "risk_score") in
  let diversification :=
    default 0%Q (portfolio !! "diversification_score") in
  let budget := budget state in
  if lt_number (5 # 2)%Q risk_score || lt_number 100000%Q budget
     || lt_number diversification 60%Q
  then "hitl_required"
  else "no_hitl".

(** [_check_hitl_approval] *)
Definition _check_hitl_approval (state : AgentState) : string :=
  match hitl_approved state with
  | Some true => "approved"
  | Some false => "rejected"
  | None => "pending"
  end.

(** The edges [_create_graph] adds; the entry point is
    [analyze_inputs]. *)
Definition _create_graph (n : Node) : Edge Node AgentState :=
  match n with
  | analyze_inputs => Direct (Goto fetch_market_data)
  | fetch_market_data => Direct (Goto reason_about_strategy)
  | reason_about_strategy => Direct (Goto generate_recommendations)
  | generate_recommendations => Direct (Goto optimize_portfolio)
  | optimize_portfolio =>
      Conditional _should_require_hitl_approval
        [("hitl_required", Goto hitl_review);
         ("no_hitl", Goto finalize_portfolio)]
  | hitl_review =>
      Conditional _check_hitl_approval
        [("approved", Goto finalize_portfolio);
         ("rejected", Goto reason_about_strategy);
         ("pending", END)]
  | finalize_portfolio => Direct (Goto log_decision)
  | log_decision => Direct END
  end.

End ReAct.

(** ** [HITLPortfolioOptimizerAgent] *)

Module HITLPortfolio.

(** [class PortfolioOptimizerState(TypedDict)].  [hitl_approval_status]
    is a plain string: the nodes store in it the value of a [HITLStatus]
    member, or ["none"], ["error"], ["timeout"]. *)
Record PortfolioOptimizerState : Type := mkPortfolioOptimizerState {
  messages : list BaseMessage;
  budget : number;
  timeframe : string;
  risk_level : string;
  market_data : payload;
  stock_recommendations : list payload;
  reasoning_trace : list string;
  hitl_approval_required : bool;
  hitl_approval_status : string;
  hitl_decision_id : option string;
  final_portfolio : gmap string number;
  audit_log : list payload
}.

Inductive Node : Type :=
| analyze_inputs
| fetch_market_data
| reason_about_strategy
| generate_recommendations
| optimize_portfolio
| request_hitl_approval
| wait_for_hitl_decision
| process_hitl_decision
| finalize_portfolio
| log_decision.

(** [_should_request_hitl_approval] *)
Definition _should_request_hitl_approval (state : PortfolioOptimizerState)
    : string :=
  if hitl_approval_required state then "hitl_required" else "no_hitl".

(** [_check_hitl_decision]; [HITLStatus] is a [str] enumeration, so the
    comparison with a member is the comparison with its value. *)
Definition _check_hitl_decision (state : PortfolioOptimizerState)
    : string :=
  let status := hitl_approval_status state in
  if bool_decide (status = HITLStatus_value APPROVED)
     || bool_decide (status = HITLStatus_value BYPASSED)
  then "approved"
  else if bool_decide (status = HITLStatus_value REJECTED)
  then "rejected"
  else "pending".

(** The edges [_create_hitl_graph] adds; the entry point is
    [analyze_inputs]. *)
Definition _create_hitl_graph (n : Node)
    : Edge Node PortfolioOptimizerState :=
  match n with
  | analyze_inputs => Direct (Goto fetch_market_data)
  | fetch_market_data => Direct (Goto reason_about_strategy)
  | reason_about_strategy => Direct (Goto generate_recommendations)
  | generate_recommendations => Direct (Goto optimize_portfolio)
  | optimize_portfolio =>
      Conditional _should_request_hitl_approval
        [("hitl_required", Goto request_hitl_approval);
         ("no_hitl", Goto finalize_portfolio)]
  | request_hitl_approval => Direct (Goto wait_for_hitl_decision)
  | wait_for_hitl_decision =>
      Conditional _check_hitl_decision
        [("approved", Goto finalize_portfolio);
         ("rejected", Goto reason_about_strategy);
         ("pending", END)]
  | process_hitl_decision => Direct (Goto finalize_portfolio)
  | finalize_portfolio => Direct (Goto log_decision)
  | log_decision => Direct END
  end.

(** [n] has an edge to [m]: for some state the engine goes from [n] to
    [m]. *)
Definition edge_to (n m : Node) : Prop :=
  ∃ st, next_target _create_hitl_graph n st = Some (Goto m).

End HITLPortfolio.

(** ** Vocabulary of the statements *)

(** The entry [_add_to_history] writes for a decision. *)
Definition history_entry (d : HITLDecision) (now : datetime) : DecisionDict :=
  set_timestamp now (to_dict d).

(** The decision the bypass branch of [create_decision] builds. *)
Definition bypassed_decision (a ty : string) (data : payload)
    (descr u : string) (ts : Z) (uuid4 : string) (t1 t2 : datetime)
    : HITLDecision :=
  set_resolution_reason (Some "Autonomous mode enabled")
    (set_resolved_at (Some t2)
       (HITLDecision_init uuid4 a ty data descr BYPASSED u ts t1)).

(** The decisions [approve_decision], [reject_decision] and
    [_handle_timeout] store for a pending decision [d]. *)
Definition approved (d : HITLDecision) (c : option string) (t : datetime)
    : HITLDecision :=
  set_user_comments c
    (set_resolution_reason (Some "Approved by user")
       (set_resolved_at (Some t) (set_status APPROVED d))).

Definition rejected (d : HITLDecision) (c : option string) (t : datetime)
    : HITLDecision :=
  set_user_comments c
    (set_resolution_reason (Some "Rejected by user")
       (set_resolved_at (Some t) (set_status REJECTED d))).

Definition timed_out (d : HITLDecision) (ts : Z) (t : datetime)
    : HITLDecision :=
  set_resolution_reason
    (Some ("Timed out after " +:+ pretty ts +:+ " seconds"))
    (set_resolved_at (Some t) (set_status TIMEOUT d)).

(** The manager once the pending decision under [i] is replaced by its
    resolved form [d]. *)
Definition resolve_with (i : string) (d : HITLDecision) (now : datetime)
    (s : HITLManager) : HITLManager :=
  mkHITLManager (delete i (pending_decisions s))
    (<[i := d]> (resolved_decisions s))
    (take 1000 (history_entry d now :: decision_history s))
    (global_autonomous_mode s) (agent_hitl_overrides s).

(** Statuses a decision ends in. *)
Definition terminal (st : HITLStatus) : Prop :=
  st ∈ [APPROVED; REJECTED; TIMEOUT; BYPASSED].

(** Statuses a pending decision is resolved to. *)
Definition resolution (st : HITLStatus) : Prop :=
  st ∈ [APPROVED; REJECTED; TIMEOUT].

Record coordinator_inv (s : HITLManager) : Prop := mk_coordinator_inv {
  inv_pending : ∀ i d, pending_decisions s !! i = Some d →
    status d = PENDING ∧ resolved_at d = None;
  inv_resolved : ∀ i d, resolved_decisions s !! i = Some d →
    terminal (status d) ∧ is_Some (resolved_at d);
  inv_disjoint : ∀ i,
    pending_decisions s !! i = None ∨ resolved_decisions s !! i = None
}.

(** How a stored decision [d] may look, as [d'], at a later time: untouched,
    or taken out of [PENDING] with [resolved_at] set on that occasion. *)
Definition evolves (d d' : HITLDecision) : Prop :=
  d' = d ∨
  (status d = PENDING ∧ resolved_at d = None ∧
   resolution (status d') ∧ is_Some (resolved_at d')).

(** The shapes of the change one call makes to the manager. *)
Inductive effect (s : HITLManager) : HITLManager → Prop :=
| effect_policy (g : bool) (o : gmap string bool) :
    effect s (mkHITLManager (pending_decisions s) (resolved_decisions s)
                (decision_history s) g o)
| effect_resolve (i : string) (d d' : HITLDecision) (now : datetime) :
    pending_decisions s !! i = Some d →
    resolution (status d') →
    is_Some (resolved_at d') →
    effect s (resolve_with i d' now s)
| effect_bypass (i : string) (d : HITLDecision) (now : datetime) :
    unused i s = true →
    status d = BYPASSED →
    is_Some (resolved_at d) →
    effect s (mkHITLManager (pending_decisions s)
                (<[i := d]> (resolved_decisions s))
                (take 1000 (history_entry d now :: decision_history s))
                (global_autonomous_mode s) (agent_hitl_overrides s))
| effect_pending (i : string) (d : HITLDecision) :
    unused i s = true →
    status d = PENDING →
    resolved_at d = None →
    effect s (mkHITLManager (<[i := d]> (pending_decisions s))
                (resolved_decisions s) (decision_history s)
                (global_autonomous_mode s) (agent_hitl_overrides s)).

Ltac in_list :=
  unfold resolution, terminal; cbn; rewrite ?elem_of_cons; auto 6.

(** The manager with only the global flag set. *)
Definition autonomous_manager : HITLManager :=
  (set_global_autonomous_mode true HITLManager_init).2.

(** A manager that gates the agent ["portfolio"], and the state after a
    request of that agent: one pending decision, under ["d-1"]. *)
Definition gating_manager : HITLManager :=
  (set_agent_hitl_override "portfolio" true HITLManager_init).2.

Definition pending_request : HITLDecision * HITLManager :=
  create_decision "portfolio" "allocation" [("risk", "High")]
    "Portfolio allocation" "default_user" 5 "d-1" 100%Z 101%Z 102%Z
    gating_manager.

(** A session: the agent ["portfolio"] is gated and asks twice, the first
    request is approved, then an ungated agent asks once. *)
Definition session : list Op :=
  [SetAgentOverride "portfolio" true;
   Create "portfolio" "allocation" [("risk", "High")] "Portfolio allocation"
     "default_user" 5 "d-1" 100%Z 101%Z 102%Z;
   Create "portfolio" "allocation" [("risk", "Low")] "Portfolio allocation"
     "default_user" 1 "d-2" 103%Z 104%Z 105%Z;
   Approve "d-1" (Some "ok") 110%Z 111%Z;
   Create "timing" "timing_advice" [] "Market timing" "default_user" 300
     "d-3" 112%Z 113%Z 114%Z].

Definition full_history : HITLManager :=
  set_decision_history
    (replicate 1000 (history_entry pending_request.1 0%Z))
    pending_request.2.

(** The three read methods, as data. *)
Inductive Read : Type :=
| GetDecision (decision_id : string)
| GetPendingDecisions (agent : option string)
| GetDecisionHistory (agent : option string) (limit : Z).

(** The manager after a read. *)
Definition after_read (r : Read) (s : HITLManager) : HITLManager :=
  match r with
  | GetDecision i => (get_decision i s).2
  | GetPendingDecisions a => (get_pending_decisions a s).2
  | GetDecisionHistory a l => (get_decision_history a l s).2
  end.

Fixpoint after_reads (rs : list Read) (s : HITLManager) : HITLManager :=
  match rs with
  | [] => s
  | r :: rest => after_reads rest (after_read r s)
  end.

(** A state suspended at the gate: the decision ["d-1"] is still pending. *)
Definition suspended_state : HITLPortfolio.PortfolioOptimizerState :=
  HITLPortfolio.mkPortfolioOptimizerState [] 150000%Q "Medium" "High" [] []
    [] true "pending" (Some "d-1") ∅ [].

(** [w] occurs in [r]. *)
Definition occurs_in (w r : string) : Prop :=
  ∃ pre post, r = pre +:+ w +:+ post.

(** The node functions of a run of the ReAct graph: [_analyze_inputs] at
    its node, [rest] at the others. *)
Definition react_nodes (format_money : number → string)
    (rest : ReAct.Node → ReAct.AgentState → option ReAct.AgentState)
    (n : ReAct.Node) (st : ReAct.AgentState) : option ReAct.AgentState :=
  match n with
  | ReAct.analyze_inputs => Some (ReAct._analyze_inputs format_money st)
  | _ => rest n st
  end.

(** A request with a budget below the minimum and labels the step does not
    know, as in [test_input_validation]. *)
Definition malformed_request : ReAct.AgentState :=
  ReAct.mkAgentState [HumanMessage "Optimize portfolio"] 500%Q "Invalid"
    "Invalid" [] [] [] false None ∅ [].

(** ** Serialisation and the two files *)

(** [HITLDecision.from_dict].  [created_at] is passed to the constructor,
    which then does not read the clock; [data.get("resolved_at")] is tested
    for truth, and the text of a date is never empty; the key
    ["timestamp"] of a history entry is not read. *)
Definition from_dict (data : DecisionDict) : HITLDecision :=
  let decision :=
    HITLDecision_init (k_decision_id data) (k_agent_id data)
      (k_decision_type data) (k_decision_data data) (k_description data)
      (k_status data) (k_user_id data) (k_timeout_seconds data)
      (k_created_at data) in
  let decision :=
    match k_resolved_at data with
    | Some t => set_resolved_at (Some t) decision
    | None => decision
    end in
  let decision := set_resolution_reason (k_resolution_reason data) decision in
  set_user_comments (k_user_comments data) decision.

(** The content of [hitl_decisions.json] and [hitl_history.json]; [None]
    where the file does not exist. *)
Record Disk : Type := mkDisk {
  decision_file : option (list DecisionDict);
  history_file : option (list DecisionDict)
}.

(** [HITLManager._save_data], both writes succeeding: what the two
    [json.dump] calls are given. *)
Definition _save_data (s : HITLManager) : Disk :=
  let all_decisions :=
    ((map_to_list (pending_decisions s)).*2
     ++ (map_to_list (resolved_decisions s)).*2)%list in
  {| decision_file := Some (to_dict <$> all_decisions);
     history_file := Some (decision_history s) |}.

(** The body of the [for] loop of [_load_data]. *)
Definition load_decision (s : HITLManager) (decision_data : DecisionDict)
    : HITLManager :=
  let decision := from_dict decision_data in
  if bool_decide (status decision = PENDING)
  then set_pending_decisions
         (<[decision_id decision := decision]> (pending_decisions s)) s
  else set_resolved_decisions
         (<[decision_id decision := decision]> (resolved_decisions s)) s.

(** [HITLManager._load_data] on well-formed files. *)
Definition _load_data (disk : Disk) (s : HITLManager) : HITLManager :=
  let s :=
    match decision_file disk with
    | Some decisions_data => foldl load_decision s decisions_data
    | None => s
    end in
  match history_file disk with
  | Some history => set_decision_history history s
  | None => s
  end.

(** ** [HITLEnhancedAgent] *)

Module Agent.

(** The fields of [class HITLEnhancedAgent]. *)
Record HITLEnhancedAgent : Type := mkHITLEnhancedAgent {
  agent_id : string;
  agent_name : string;
  hitl_enabled : bool;
  autonomous_mode : bool;
  hitl_timeout_seconds : Z
}.

(** [HITLEnhancedAgent.__init__] *)
Definition __init__ (agent_id agent_name : string) : M HITLEnhancedAgent :=
  let self := mkHITLEnhancedAgent agent_id agent_name false true 300 in
  set_agent_hitl_override agent_id (hitl_enabled self) >>
  ret self.

(** [HITLEnhancedAgent.set_hitl_enabled] *)
Definition set_hitl_enabled (enabled : bool) (self : HITLEnhancedAgent)
    : M HITLEnhancedAgent :=
  let self :=
    mkHITLEnhancedAgent (agent_id self) (agent_name self) enabled
      (autonomous_mode self) (hitl_timeout_seconds self) in
  set_agent_hitl_override (agent_id self) enabled >>
  ret self.

(** [HITLEnhancedAgent.set_autonomous_mode] *)
Definition set_autonomous_mode (enabled : bool) (self : HITLEnhancedAgent)
    : M HITLEnhancedAgent :=
  ret (mkHITLEnhancedAgent (agent_id self) (agent_name self)
         (hitl_enabled self) enabled (hitl_timeout_seconds self)).

(** [HITLEnhancedAgent.set_hitl_timeout] *)
Definition set_hitl_timeout (timeout_seconds : Z) (self : HITLEnhancedAgent)
    : M HITLEnhancedAgent :=
  ret (mkHITLEnhancedAgent (agent_id self) (agent_name self)
         (hitl_enabled self) (autonomous_mode self)
         (Z.max 30 timeout_seconds)).

(** [HITLEnhancedAgent.request_hitl_approval]; the [callback] argument is
    passed on to nothing. *)
Definition request_hitl_approval (self : HITLEnhancedAgent)
    (decision_type : string) (decision_data : payload)
    (description user_id : string) (uuid4 : string)
    (now_created now_resolved now_logged : datetime) : M HITLDecision :=
  if negb (hitl_enabled self) || autonomous_mode self then
    create_decision (agent_id self) decision_type decision_data description
      user_id (hitl_timeout_seconds self) uuid4 now_created now_resolved
      now_logged
  else
    let* decision :=
      create_decision (agent_id self) decision_type decision_data
        description user_id (hitl_timeout_seconds self) uuid4 now_created
        now_resolved now_logged in
    ret decision.

(** [HITLEnhancedAgent.get_pending_decisions] *)
Definition get_pending_decisions (self : HITLEnhancedAgent)
    : M (list DecisionDict) :=
  get_pending_decisions (Some (agent_id self)).

(** [HITLEnhancedAgent.get_decision_history] *)
Definition get_decision_history (self : HITLEnhancedAgent) (limit : Z)
    : M (list DecisionDict) :=
  get_decision_history (Some (agent_id self)) limit.

(** The setters of an agent, as data. *)
Inductive Setter : Type :=
| SetHitlEnabled (enabled : bool)
| SetAutonomousMode (enabled : bool)
| SetHitlTimeout (timeout_seconds : Z).

Definition call (c : Setter) (self : HITLEnhancedAgent)
    : M HITLEnhancedAgent :=
  match c with
  | SetHitlEnabled b => set_hitl_enabled b self
  | SetAutonomousMode b => set_autonomous_mode b self
  | SetHitlTimeout ts => set_hitl_timeout ts self
  end.

(** The agent and the manager after a sequence of setter calls. *)
Fixpoint calls (cs : list Setter) (self : HITLEnhancedAgent)
    (s : HITLManager) : HITLEnhancedAgent * HITLManager :=
  match cs with
  | [] => (self, s)
  | c :: rest => let '(self', s') := call c self s in calls rest self' s'
  end.

End Agent.

(** ** Nodes and predicates of the two portfolio agents *)

Module HITLPortfolioNodes.

Definition set_hitl_approval_required (v : bool)
    (st : HITLPortfolio.PortfolioOptimizerState)
    : HITLPortfolio.PortfolioOptimizerState :=
  HITLPortfolio.mkPortfolioOptimizerState (HITLPortfolio.messages st)
    (HITLPortfolio.budget st) (HITLPortfolio.timeframe st)
    (HITLPortfolio.risk_level st) (HITLPortfolio.market_data st)
    (HITLPortfolio.stock_recommendations st)
    (HITLPortfolio.reasoning_trace st) v
    (HITLPortfolio.hitl_approval_status st)
    (HITLPortfolio.hitl_decision_id st) (HITLPortfolio.final_portfolio st)
    (HITLPortfolio.audit_log st).

Definition set_hitl_approval_status (v : string)
    (st : HITLPortfolio.PortfolioOptimizerState)
    : HITLPortfolio.PortfolioOptimizerState :=
  HITLPortfolio.mkPortfolioOptimizerState (HITLPortfolio.messages st)
    (HITLPortfolio.budget st) (HITLPortfolio.timeframe st)
    (HITLPortfolio.risk_level st) (HITLPortfolio.market_data st)
    (HITLPortfolio.stock_recommendations st)
    (HITLPortfolio.reasoning_trace st)
    (HITLPortfolio.hitl_approval_required st) v
    (HITLPortfolio.hitl_decision_id st) (HITLPortfolio.final_portfolio st)
    (HITLPortfolio.audit_log st).

(** [HITLPortfolioOptimizerAgent.should_request_hitl] *)
Definition should_request_hitl (self : Agent.HITLEnhancedAgent)
    (state : HITLPortfolio.PortfolioOptimizerState) : bool :=
  if negb (Agent.hitl_enabled self) || Agent.autonomous_mode self then false
  else
    let portfolio := HITLPortfolio.final_portfolio state in
    let risk_score := default 0%Q (portfolio !! "risk_score") in
    if lt_number (5 # 2)%Q risk_score then true
    else
      let budget := HITLPortfolio.budget state in
      if lt_number 100000%Q budget then true
      else
        let diversification :=
          default 100%Q (portfolio !! "diversification_score") in
        if lt_number diversification 60%Q then true
        else
          let expected_return :=
            default 0%Q (portfolio !! "expected_return") in
          if lt_number 20%Q expected_return then true
          else false.

(** [HITLPortfolioOptimizerAgent._optimize_portfolio]; [base] is the node
    of the base agent it delegates to, [None] where that raises. *)
Definition _optimize_portfolio
    (base : HITLPortfolio.PortfolioOptimizerState →
            option HITLPortfolio.PortfolioOptimizerState)
    (self : Agent.HITLEnhancedAgent)
    (state : HITLPortfolio.PortfolioOptimizerState)
    : option HITLPortfolio.PortfolioOptimizerState :=
  match base state with
  | None => None
  | Some base_state =>
      let should_request_hitl := should_request_hitl self base_state in
      Some (set_hitl_approval_required should_request_hitl base_state)
  end.

(** [HITLPortfolioOptimizerAgent.process_hitl_decision] *)
Definition process_hitl_decision (decision : HITLDecision)
    (state : HITLPortfolio.PortfolioOptimizerState)
    : HITLPortfolio.PortfolioOptimizerState :=
  if bool_decide (status decision = APPROVED)
  then set_hitl_approval_status (HITLStatus_value APPROVED) state
  else if bool_decide (status decision = REJECTED)
  then set_hitl_approval_status (HITLStatus_value REJECTED) state
  else if bool_decide (status decision = BYPASSED)
  then set_hitl_approval_status (HITLStatus_value BYPASSED) state
  else set_hitl_approval_status (HITLStatus_value (status decision)) state.

(** The node functions of a run in which the optimize node is the one
    above and the others are [rest]. *)
Definition nodes
    (base : HITLPortfolio.PortfolioOptimizerState →
            option HITLPortfolio.PortfolioOptimizerState)
    (self : Agent.HITLEnhancedAgent)
    (rest : HITLPortfolio.Node → HITLPortfolio.PortfolioOptimizerState →
            option HITLPortfolio.PortfolioOptimizerState)
    (n : HITLPortfolio.Node) (st : HITLPortfolio.PortfolioOptimizerState)
    : option HITLPortfolio.PortfolioOptimizerState :=
  match n with
  | HITLPortfolio.optimize_portfolio => _optimize_portfolio base self st
  | _ => rest n st
  end.

End HITLPortfolioNodes.

Module ReActNodes.


Section Review.
(** The renderings [f"{x:.1f}"], [f"{x:,.2f}"] and [f"{x}"] of a number,
    and the floating point value of the quality formula of
    [_hitl_review] on a portfolio. *)
Variable format_1f : number → string.
Variable format_money : number → string.
Variable format_plain : number → string.
Variable portfolio_quality : gmap string number → number.

End Review.

End ReActNodes.

(** ** Further vocabulary *)

(** The resolved forms of a pending decision [d]. *)
Inductive resolved_form (d : HITLDecision) : HITLDecision → Prop :=
| form_approved (c : option string) (t : datetime) :
    resolved_form d (approved d c t)
| form_rejected (c : option string) (t : datetime) :
    resolved_form d (rejected d c t)
| form_timed_out (ts : Z) (t : datetime) :
    resolved_form d (timed_out d ts t).

(** The change one call makes to the manager, with what it stores. *)
Inductive change (s : HITLManager) : HITLManager → Prop :=
| change_policy (g : bool) (o : gmap string bool) :
    change s (mkHITLManager (pending_decisions s) (resolved_decisions s)
                (decision_history s) g o)
| change_resolve (i : string) (d d' : HITLDecision) (now : datetime) :
    pending_decisions s !! i = Some d →
    resolved_form d d' →
    change s (resolve_with i d' now s)
| change_bypass (a ty : string) (data : payload) (descr u : string)
    (ts : Z) (uuid4 : string) (t1 t2 t3 : datetime) :
    unused uuid4 s = true →
    change s
      (mkHITLManager (pending_decisions s)
         (<[uuid4 := bypassed_decision a ty data descr u ts uuid4 t1 t2]>
            (resolved_decisions s))
         (take 1000
            (history_entry
               (bypassed_decision a ty data descr u ts uuid4 t1 t2) t3
             :: decision_history s))
         (global_autonomous_mode s) (agent_hitl_overrides s))
| change_pending (a ty : string) (data : payload) (descr u : string)
    (ts : Z) (uuid4 : string) (t1 : datetime) :
    unused uuid4 s = true →
    change s
      (mkHITLManager
         (<[uuid4 := HITLDecision_init uuid4 a ty data descr PENDING u ts t1]>
            (pending_decisions s))
         (resolved_decisions s) (decision_history s)
         (global_autonomous_mode s) (agent_hitl_overrides s)).

(** The fields of a decision that describe the request. *)
Definition same_request (d d' : HITLDecision) : Prop :=
  decision_id d' = decision_id d ∧
  agent_id d' = agent_id d ∧
  decision_type d' = decision_type d ∧
  decision_data d' = decision_data d ∧
  description d' = description d ∧
  created_at d' = created_at d ∧
  user_id d' = user_id d ∧
  timeout_seconds d' = timeout_seconds d.

(** What ties the indices and the history together. *)
Record store_inv (s : HITLManager) : Prop := mk_store_inv {
  keyed_pending : ∀ i d, pending_decisions s !! i = Some d →
    decision_id d = i;
  keyed_resolved : ∀ i d, resolved_decisions s !! i = Some d →
    decision_id d = i;
  history_snapshots : ∀ e, e ∈ decision_history s →
    ∃ d t, resolved_decisions s !! k_decision_id e = Some d ∧
           e = history_entry d t;
  history_length :
    length (decision_history s) = min 1000 (size (resolved_decisions s))
}.

(** The number of [create_decision] calls in a sequence. *)
Definition is_create (op : Op) : bool :=
  match op with
  | Create _ _ _ _ _ _ _ _ _ _ => true
  | _ => false
  end.

Definition creates (ops : list Op) : nat := length (filter is_create ops).

(** The id a resolving call ([approve_decision], [reject_decision], a
    timeout firing) is about, the form it gives a pending decision, and the
    time it logs. *)
Definition target (op : Op) : option string :=
  match op with
  | Approve i _ _ _ | Reject i _ _ _ | TimeoutFires i _ _ _ => Some i
  | _ => None
  end.

Definition resolved_as (op : Op) (d : HITLDecision) : HITLDecision :=
  match op with
  | Approve _ c t _ => approved d c t
  | Reject _ c t _ => rejected d c t
  | TimeoutFires _ ts t _ => timed_out d ts t
  | _ => d
  end.

Definition logged_at (op : Op) : datetime :=
  match op with
  | Approve _ _ _ t | Reject _ _ _ t | TimeoutFires _ _ _ t => t
  | _ => 0%Z
  end.

(** * Properties *)

(** ** Equations of the manager's methods *)

Lemma is_hitl_required_eq (a : string) (s : HITLManager) :
  is_hitl_required a s =
  (if global_autonomous_mode s then false
   else default false (agent_hitl_overrides s !! a), s).
Proof.
  unfold is_hitl_required, bind, gets, ret.
  by destruct (global_autonomous_mode s).
Qed.

Lemma _add_to_history_eq (d : HITLDecision) (now : datetime)
    (s : HITLManager) :
  _add_to_history d now s =
  (tt, set_decision_history
         (take 1000 (history_entry d now :: decision_history s)) s).
Proof.
  unfold _add_to_history, bind, gets, modify, ret, history_entry.
  cbn [decision_history set_decision_history].
  case_bool_decide as Hlen; [done |].
  rewrite take_ge; [done | cbn [length] in *; lia].
Qed.

Lemma move_to_resolved_eq (i : string) (d : HITLDecision) (now : datetime)
    (s : HITLManager) :
  move_to_resolved i d now s =
  (tt, mkHITLManager (delete i (pending_decisions s))
         (<[i := d]> (resolved_decisions s))
         (take 1000 (history_entry d now :: decision_history s))
         (global_autonomous_mode s) (agent_hitl_overrides s)).
Proof.
  unfold move_to_resolved, bind, modify.
  by rewrite _add_to_history_eq.
Qed.

Lemma create_decision_bypass (a ty : string) (data : payload)
    (descr u : string) (ts : Z) (uuid4 : string) (t1 t2 t3 : datetime)
    (s : HITLManager) :
  (is_hitl_required a s).1 = false →
  create_decision a ty data descr u ts uuid4 t1 t2 t3 s =
  let d := bypassed_decision a ty data descr u ts uuid4 t1 t2 in
  (d, mkHITLManager (pending_decisions s)
        (<[uuid4 := d]> (resolved_decisions s))
        (take 1000 (history_entry d t3 :: decision_history s))
        (global_autonomous_mode s) (agent_hitl_overrides s)).
Proof.
  intros Hreq. unfold create_decision, bind.
  rewrite is_hitl_required_eq in Hreq |- *. cbn [fst] in Hreq.
  rewrite Hreq. cbn [negb]. unfold modify, ret.
  by rewrite _add_to_history_eq.
Qed.

Lemma create_decision_pending (a ty : string) (data : payload)
    (descr u : string) (ts : Z) (uuid4 : string) (t1 t2 t3 : datetime)
    (s : HITLManager) :
  (is_hitl_required a s).1 = true →
  create_decision a ty data descr u ts uuid4 t1 t2 t3 s =
  let d := HITLDecision_init uuid4 a ty data descr PENDING u ts t1 in
  (d, mkHITLManager (<[uuid4 := d]> (pending_decisions s))
        (resolved_decisions s) (decision_history s)
        (global_autonomous_mode s) (agent_hitl_overrides s)).
Proof.
  intros Hreq. unfold create_decision, bind.
  rewrite is_hitl_required_eq in Hreq |- *. cbn [fst] in Hreq.
  by rewrite Hreq.
Qed.

Lemma approve_decision_pending (i : string) (c : option string)
    (t1 t2 : datetime) (s : HITLManager) (d : HITLDecision) :
  pending_decisions s !! i = Some d →
  approve_decision i c t1 t2 s = (true, resolve_with i (approved d c t1) t2 s).
Proof.
  intros Hd. unfold approve_decision, bind, gets. rewrite Hd.
  by rewrite move_to_resolved_eq.
Qed.

Lemma approve_decision_absent (i : string) (c : option string)
    (t1 t2 : datetime) (s : HITLManager) :
  pending_decisions s !! i = None →
  approve_decision i c t1 t2 s = (false, s).
Proof. intros Hd. unfold approve_decision, bind, gets. by rewrite Hd. Qed.

Lemma reject_decision_pending (i : string) (c : option string)
    (t1 t2 : datetime) (s : HITLManager) (d : HITLDecision) :
  pending_decisions s !! i = Some d →
  reject_decision i c t1 t2 s = (true, resolve_with i (rejected d c t1) t2 s).
Proof.
  intros Hd. unfold reject_decision, bind, gets. rewrite Hd.
  by rewrite move_to_resolved_eq.
Qed.

Lemma reject_decision_absent (i : string) (c : option string)
    (t1 t2 : datetime) (s : HITLManager) :
  pending_decisions s !! i = None →
  reject_decision i c t1 t2 s = (false, s).
Proof. intros Hd. unfold reject_decision, bind, gets. by rewrite Hd. Qed.

Lemma _handle_timeout_pending (i : string) (ts : Z) (t1 t2 : datetime)
    (s : HITLManager) (d : HITLDecision) :
  pending_decisions s !! i = Some d →
  _handle_timeout i ts t1 t2 s = (tt, resolve_with i (timed_out d ts t1) t2 s).
Proof.
  intros Hd. unfold _handle_timeout, bind, gets. rewrite Hd.
  by rewrite move_to_resolved_eq.
Qed.

Lemma _handle_timeout_absent (i : string) (ts : Z) (t1 t2 : datetime)
    (s : HITLManager) :
  pending_decisions s !! i = None →
  _handle_timeout i ts t1 t2 s = (tt, s).
Proof. intros Hd. unfold _handle_timeout, bind, gets. by rewrite Hd. Qed.

(** ** The coordinator invariant *)

Lemma effect_refl (s : HITLManager) : effect s s.
Proof.
  destruct s as [p r h g o].
  exact (effect_policy (mkHITLManager p r h g o) g o).
Qed.

Lemma resolution_terminal (st : HITLStatus) : resolution st → terminal st.
Proof.
  unfold resolution, terminal. rewrite !elem_of_cons, !elem_of_nil. tauto.
Qed.

Lemma resolution_not_pending (st : HITLStatus) : resolution st → st ≠ PENDING.
Proof.
  unfold resolution. rewrite !elem_of_cons, elem_of_nil.
  intuition congruence.
Qed.

Lemma unused_spec (i : string) (s : HITLManager) :
  unused i s = true ↔
  pending_decisions s !! i = None ∧ resolved_decisions s !! i = None.
Proof.
  unfold unused. rewrite andb_true_iff, !bool_decide_eq_true. done.
Qed.

(** Every call, with a fresh id if it draws one, has one of the effects. *)
Lemma exec_effect (op : Op) (s : HITLManager) :
  fresh_uuid op s = true → effect s (exec op s).
Proof.
  destruct op as [a ty data descr u ts uuid4 t1 t2 t3 | i c t1 t2
                 | i c t1 t2 | i ts t1 t2 | b | a b];
    cbn [fresh_uuid exec]; intros Hfresh.
  - destruct (is_hitl_required a s).1 eqn:Hreq.
    + rewrite create_decision_pending by done. cbn [snd].
      by apply effect_pending.
    + rewrite create_decision_bypass by done. cbn [snd].
      apply effect_bypass; [done | done | by eexists].
  - destruct (pending_decisions s !! i) as [d|] eqn:Hd.
    + rewrite (approve_decision_pending _ _ _ _ _ d) by done. cbn [snd].
      eapply effect_resolve; [done | | by eexists].
      in_list.
    + rewrite approve_decision_absent by done. apply effect_refl.
  - destruct (pending_decisions s !! i) as [d|] eqn:Hd.
    + rewrite (reject_decision_pending _ _ _ _ _ d) by done. cbn [snd].
      eapply effect_resolve; [done | | by eexists].
      in_list.
    + rewrite reject_decision_absent by done. apply effect_refl.
  - destruct (pending_decisions s !! i) as [d|] eqn:Hd.
    + rewrite (_handle_timeout_pending _ _ _ _ _ d) by done. cbn [snd].
      eapply effect_resolve; [done | | by eexists].
      in_list.
    + rewrite _handle_timeout_absent by done. apply effect_refl.
  - apply effect_policy.
  - apply effect_policy.
Qed.

Lemma effect_inv (s s' : HITLManager) :
  effect s s' → coordinator_inv s → coordinator_inv s'.
Proof.
  intros Heff [Hp Hr Hdis].
  destruct Heff as [g o | i d d' now Hd Hst Hat | i d now Hfresh Hst Hat
                   | i d Hfresh Hst Hat].
  - by split.
  - split; cbn [pending_decisions resolved_decisions resolve_with].
    + intros j e He. apply lookup_delete_Some in He as [_ He]. eauto.
    + intros j e He. apply lookup_insert_Some in He as [[<- <-] | [_ He]].
      * split; [by apply resolution_terminal | done].
      * eauto.
    + intros j. destruct (decide (i = j)) as [<- | Hne].
      * left. apply lookup_delete_eq.
      * rewrite lookup_delete_ne, lookup_insert_ne by done. apply Hdis.
  - apply unused_spec in Hfresh as [Hfp Hfr].
    split; cbn [pending_decisions resolved_decisions].
    + done.
    + intros j e He. apply lookup_insert_Some in He as [[<- <-] | [_ He]].
      * split; [rewrite Hst; in_list | done].
      * eauto.
    + intros j. destruct (decide (i = j)) as [<- | Hne].
      * by left.
      * rewrite lookup_insert_ne by done. apply Hdis.
  - apply unused_spec in Hfresh as [Hfp Hfr].
    split; cbn [pending_decisions resolved_decisions].
    + intros j e He. apply lookup_insert_Some in He as [[<- <-] | [_ He]].
      * done.
      * eauto.
    + done.
    + intros j. destruct (decide (i = j)) as [<- | Hne].
      * by right.
      * rewrite lookup_insert_ne by done. apply Hdis.
Qed.

(** A decision in the resolved index only stays as it is. *)
Lemma effect_resolved_stable (s s' : HITLManager) (i : string)
    (d : HITLDecision) :
  effect s s' →
  pending_decisions s !! i = None →
  resolved_decisions s !! i = Some d →
  pending_decisions s' !! i = None ∧ resolved_decisions s' !! i = Some d.
Proof.
  intros Heff Hp Hr.
  destruct Heff as [g o | j e e' now He Hst Hat | j e now Hfresh Hst Hat
                   | j e Hfresh Hst Hat];
    cbn [pending_decisions resolved_decisions resolve_with].
  - done.
  - assert (j ≠ i) by congruence.
    by rewrite lookup_delete_ne, lookup_insert_ne.
  - apply unused_spec in Hfresh as [_ Hfr].
    assert (j ≠ i) by congruence. by rewrite lookup_insert_ne.
  - apply unused_spec in Hfresh as [_ Hfr].
    assert (j ≠ i) by congruence. by rewrite lookup_insert_ne.
Qed.

(** A stored decision stays stored, and changes only as [evolves] allows. *)
Lemma effect_evolves (s s' : HITLManager) (i : string) (d : HITLDecision) :
  effect s s' → coordinator_inv s →
  find_decision s i = Some d →
  ∃ d', find_decision s' i = Some d' ∧ evolves d d'.
Proof.
  intros Heff [Hp Hr Hdis] Hfind. unfold find_decision in *.
  destruct Heff as [g o | j e e' now He Hst Hat | j e now Hfresh Hst Hat
                   | j e Hfresh Hst Hat];
    cbn [pending_decisions resolved_decisions resolve_with].
  - exists d. split; [done | by left].
  - destruct (decide (j = i)) as [-> | Hne].
    + rewrite lookup_delete_eq, lookup_insert_eq.
      rewrite He in Hfind. injection Hfind as <-.
      destruct (Hp _ _ He) as [Hs Ha].
      exists e'. split; [done | right; done].
    + rewrite lookup_delete_ne, lookup_insert_ne by done.
      exists d. split; [done | by left].
  - apply unused_spec in Hfresh as [Hfp Hfr].
    destruct (decide (j = i)) as [-> | Hne].
    + by rewrite Hfp, Hfr in Hfind.
    + rewrite lookup_insert_ne by done. exists d. split; [done | by left].
  - apply unused_spec in Hfresh as [Hfp Hfr].
    destruct (decide (j = i)) as [-> | Hne].
    + by rewrite Hfp, Hfr in Hfind.
    + rewrite lookup_insert_ne by done. exists d. split; [done | by left].
Qed.

Lemma evolves_trans (d1 d2 d3 : HITLDecision) :
  evolves d1 d2 → evolves d2 d3 → evolves d1 d3.
Proof.
  intros [-> | (Hs & Ha & Hres & Hat)] H23; [done |].
  destruct H23 as [-> | (Hs2 & _)].
  - right. done.
  - by apply resolution_not_pending in Hres.
Qed.

(** *** Sequences of calls *)

Lemma run_inv (ops : list Op) (s : HITLManager) :
  fresh_uuids ops s = true → coordinator_inv s → coordinator_inv (run ops s).
Proof.
  revert s. induction ops as [| op ops IH]; intros s Hfresh Hinv; [done |].
  cbn in Hfresh |- *. apply andb_true_iff in Hfresh as [Hop Hrest].
  apply IH; [done |]. eapply effect_inv; [by apply exec_effect | done].
Qed.

Lemma run_resolved_stable (ops : list Op) (s : HITLManager) (i : string)
    (d : HITLDecision) :
  fresh_uuids ops s = true →
  pending_decisions s !! i = None →
  resolved_decisions s !! i = Some d →
  pending_decisions (run ops s) !! i = None ∧
  resolved_decisions (run ops s) !! i = Some d.
Proof.
  revert s. induction ops as [| op ops IH]; intros s Hfresh Hp Hr; [done |].
  cbn in Hfresh |- *. apply andb_true_iff in Hfresh as [Hop Hrest].
  destruct (effect_resolved_stable s (exec op s) i d) as [Hp' Hr'];
    [by apply exec_effect | done | done |].
  by apply IH.
Qed.

Lemma run_evolves (ops : list Op) (s : HITLManager) (i : string)
    (d : HITLDecision) :
  fresh_uuids ops s = true → coordinator_inv s →
  find_decision s i = Some d →
  ∃ d', find_decision (run ops s) i = Some d' ∧ evolves d d'.
Proof.
  revert s d. induction ops as [| op ops IH]; intros s d Hfresh Hinv Hfind.
  - exists d. split; [done | by left].
  - cbn in Hfresh |- *. apply andb_true_iff in Hfresh as [Hop Hrest].
    pose proof (exec_effect op s Hop) as Heff.
    destruct (effect_evolves s (exec op s) i d Heff Hinv Hfind)
      as (d1 & Hfind1 & Hev1).
    destruct (IH (exec op s) d1 Hrest (effect_inv _ _ Heff Hinv) Hfind1)
      as (d2 & Hfind2 & Hev2).
    exists d2. split; [done | by eapply evolves_trans].
Qed.

Lemma HITLManager_init_inv : coordinator_inv HITLManager_init.
Proof. split; cbn; intros *; rewrite ?lookup_empty; auto; done. Qed.

(** ** Creation under the bypass policy *)

(** What the bypass branch returns and stores, whatever led to it. *)
Lemma create_decision_not_required (a ty : string) (data : payload)
    (descr u : string) (ts : Z) (uuid4 : string) (t1 t2 t3 : datetime)
    (s : HITLManager) :
  (is_hitl_required a s).1 = false →
  ∃ d s', create_decision a ty data descr u ts uuid4 t1 t2 t3 s = (d, s') ∧
    d = bypassed_decision a ty data descr u ts uuid4 t1 t2 ∧
    resolved_decisions s' !! uuid4 = Some d ∧
    pending_decisions s' = pending_decisions s ∧
    decision_history s' =
      take 1000 (history_entry d t3 :: decision_history s) ∧
    (unused uuid4 s = true → ∀ ops, fresh_uuids ops s' = true →
       pending_decisions (run ops s') !! uuid4 = None ∧
       resolved_decisions (run ops s') !! uuid4 = Some d).
Proof.
  intros Hreq. rewrite create_decision_bypass by done. cbn zeta.
  eexists _, _. split; [done |]. cbn [pending_decisions resolved_decisions
                                      decision_history].
  split_and!; try done.
  - apply lookup_insert_eq.
  - intros Hfresh ops Hops. apply unused_spec in Hfresh as [Hfp _].
    apply run_resolved_stable; [done | done |]. apply lookup_insert_eq.
Qed.

(** C1.  A call of [create_decision] made while [global_autonomous_mode] is
    true returns a decision with status [BYPASSED] whose [resolved_at] is
    the time read during that call; the call stores the decision in the
    resolved index under its id, puts its entry in front of the history and
    leaves the pending index as it was; and when the id drawn was unused,
    no later sequence of calls brings it into the pending index or changes
    the stored decision. *)
Theorem create_decision_autonomous (a ty : string) (data : payload)
    (descr u : string) (ts : Z) (uuid4 : string) (t1 t2 t3 : datetime)
    (s : HITLManager) :
  global_autonomous_mode s = true →
  ∃ d s', create_decision a ty data descr u ts uuid4 t1 t2 t3 s = (d, s') ∧
    status d = BYPASSED ∧
    resolved_at d = Some t2 ∧
    decision_id d = uuid4 ∧
    resolved_decisions s' !! uuid4 = Some d ∧
    pending_decisions s' = pending_decisions s ∧
    decision_history s' =
      take 1000 (history_entry d t3 :: decision_history s) ∧
    decision_history s' !! 0 = Some (history_entry d t3) ∧
    (unused uuid4 s = true → ∀ ops, fresh_uuids ops s' = true →
       pending_decisions (run ops s') !! uuid4 = None ∧
       resolved_decisions (run ops s') !! uuid4 = Some d).
Proof.
  intros Hauto.
  destruct (create_decision_not_required a ty data descr u ts uuid4 t1 t2 t3 s)
    as (d & s' & Hrun & -> & Hres & Hpend & Hhist & Hlater).
  { rewrite is_hitl_required_eq. by rewrite Hauto. }
  eexists _, s'. split_and!; try done. by rewrite Hhist.
Qed.

Lemma create_decision_autonomous_witness :
  global_autonomous_mode autonomous_manager = true ∧
  status (create_decision "portfolio" "allocation" [("risk", "High")]
            "Portfolio allocation" "default_user" 5 "d-1" 100%Z 101%Z 102%Z
            autonomous_manager).1 = BYPASSED.
Proof.
  split; [reflexivity |].
  destruct (create_decision_autonomous "portfolio" "allocation"
              [("risk", "High")] "Portfolio allocation" "default_user" 5
              "d-1" 100%Z 101%Z 102%Z autonomous_manager eq_refl)
    as (d & s' & Hrun & Hst & _).
  rewrite Hrun. exact Hst.
Defined.

(** C6, as the code has it.  On the bypass path, that is whenever
    [is_hitl_required] answers false, the decision [create_decision] returns
    has [resolution_reason] equal to ["Autonomous mode enabled"], with a
    capital A. *)
Theorem create_decision_bypass_reason (a ty : string) (data : payload)
    (descr u : string) (ts : Z) (uuid4 : string) (t1 t2 t3 : datetime)
    (s : HITLManager) :
  (is_hitl_required a s).1 = false →
  resolution_reason
    (create_decision a ty data descr u ts uuid4 t1 t2 t3 s).1 =
  Some "Autonomous mode enabled".
Proof. intros Hreq. by rewrite create_decision_bypass. Qed.

Lemma create_decision_bypass_reason_witness :
  (is_hitl_required "portfolio" autonomous_manager).1 = false ∧
  resolution_reason
    (create_decision "portfolio" "allocation" [("risk", "High")]
       "Portfolio allocation" "default_user" 5 "d-1" 100%Z 101%Z 102%Z
       autonomous_manager).1 = Some "Autonomous mode enabled".
Proof.
  split; [reflexivity |].
  apply (create_decision_bypass_reason "portfolio" "allocation"
           [("risk", "High")] "Portfolio allocation" "default_user" 5 "d-1"
           100%Z 101%Z 102%Z autonomous_manager).
  reflexivity.
Defined.

(** C6, as the specification words it, fails: with the global flag set the
    note is not the all-lower-case string. *)
Lemma create_decision_bypass_reason_lowercase_fails :
  (is_hitl_required "portfolio" autonomous_manager).1 = false ∧
  resolution_reason
    (create_decision "portfolio" "allocation" [("risk", "High")]
       "Portfolio allocation" "default_user" 5 "d-1" 100%Z 101%Z 102%Z
       autonomous_manager).1 ≠ Some "autonomous mode enabled".
Proof. split; [reflexivity | discriminate]. Qed.

(** C10.  For an agent with no entry in [agent_hitl_overrides],
    [is_hitl_required] answers false whatever the global flag is, in
    particular when it is false, and [create_decision] for that agent
    returns at once a [BYPASSED] decision, resolved at the time of the call
    and stored in the resolved index, the pending index being untouched. *)
Theorem no_override_means_bypass (a ty : string) (data : payload)
    (descr u : string) (ts : Z) (uuid4 : string) (t1 t2 t3 : datetime)
    (s : HITLManager) :
  agent_hitl_overrides s !! a = None →
  is_hitl_required a s = (false, s) ∧
  ∃ d s', create_decision a ty data descr u ts uuid4 t1 t2 t3 s = (d, s') ∧
    status d = BYPASSED ∧
    resolved_at d = Some t2 ∧
    resolved_decisions s' !! uuid4 = Some d ∧
    pending_decisions s' = pending_decisions s.
Proof.
  intros Hnone.
  assert (is_hitl_required a s = (false, s)) as Hreq.
  { rewrite is_hitl_required_eq, Hnone.
    by destruct (global_autonomous_mode s). }
  split; [done |].
  destruct (create_decision_not_required a ty data descr u ts uuid4 t1 t2 t3 s)
    as (d & s' & Hrun & -> & Hres & Hpend & _).
  { by rewrite Hreq. }
  by eexists _, s'.
Qed.

Lemma no_override_means_bypass_witness :
  global_autonomous_mode HITLManager_init = false ∧
  agent_hitl_overrides HITLManager_init !! "portfolio" = None ∧
  status (create_decision "portfolio" "allocation" [("risk", "High")]
            "Portfolio allocation" "default_user" 5 "d-1" 100%Z 101%Z 102%Z
            HITLManager_init).1 = BYPASSED.
Proof.
  split; [reflexivity |]. split; [reflexivity |].
  destruct (no_override_means_bypass "portfolio" "allocation"
              [("risk", "High")] "Portfolio allocation" "default_user" 5
              "d-1" 100%Z 101%Z 102%Z HITLManager_init eq_refl)
    as (_ & d & s' & Hrun & Hst & _).
  rewrite Hrun. exact Hst.
Defined.

(** ** Approval, rejection and the timeout *)

Lemma resolve_with_lookup (i : string) (d : HITLDecision) (now : datetime)
    (s : HITLManager) :
  pending_decisions (resolve_with i d now s) !! i = None ∧
  resolved_decisions (resolve_with i d now s) !! i = Some d.
Proof.
  cbn [resolve_with pending_decisions resolved_decisions].
  by rewrite lookup_delete_eq, lookup_insert_eq.
Qed.

(** C2.  For a decision id [i] and a manager [s]:
    - if [i] is in the pending index with decision [d], [approve_decision]
      returns true, takes [i] out of the pending index and stores under [i]
      in the resolved index the decision [d] with status [APPROVED] and
      [resolved_at] set to the time of the call; a following
      [reject_decision] or [approve_decision] on [i] returns false and
      leaves the manager as it is;
    - the same with [reject_decision] first and status [REJECTED];
    - if [i] is not in the pending index, because it is unknown or because
      it is resolved already, both calls return false and leave the manager
      as it is; a resolved id of a manager that satisfies the invariant is
      such an id.
    The methods are total: no call raises. *)
Theorem approve_reject_first_call_wins (i : string) (c c' : option string)
    (t1 t2 t3 t4 : datetime) (s : HITLManager) :
  (∀ d, pending_decisions s !! i = Some d →
     ∃ s1, approve_decision i c t1 t2 s = (true, s1) ∧
       pending_decisions s1 !! i = None ∧
       resolved_decisions s1 !! i = Some (approved d c t1) ∧
       status (approved d c t1) = APPROVED ∧
       resolved_at (approved d c t1) = Some t1 ∧
       reject_decision i c' t3 t4 s1 = (false, s1) ∧
       approve_decision i c' t3 t4 s1 = (false, s1)) ∧
  (∀ d, pending_decisions s !! i = Some d →
     ∃ s1, reject_decision i c t1 t2 s = (true, s1) ∧
       pending_decisions s1 !! i = None ∧
       resolved_decisions s1 !! i = Some (rejected d c t1) ∧
       status (rejected d c t1) = REJECTED ∧
       resolved_at (rejected d c t1) = Some t1 ∧
       approve_decision i c' t3 t4 s1 = (false, s1) ∧
       reject_decision i c' t3 t4 s1 = (false, s1)) ∧
  (pending_decisions s !! i = None →
     approve_decision i c t1 t2 s = (false, s) ∧
     reject_decision i c t1 t2 s = (false, s)) ∧
  (coordinator_inv s → is_Some (resolved_decisions s !! i) →
     pending_decisions s !! i = None).
Proof.
  split_and!.
  - intros d Hd. eexists. split; [by apply approve_decision_pending |].
    destruct (resolve_with_lookup i (approved d c t1) t2 s) as [Hp Hr].
    split_and!; try done.
    + by apply reject_decision_absent.
    + by apply approve_decision_absent.
  - intros d Hd. eexists. split; [by apply reject_decision_pending |].
    destruct (resolve_with_lookup i (rejected d c t1) t2 s) as [Hp Hr].
    split_and!; try done.
    + by apply approve_decision_absent.
    + by apply reject_decision_absent.
  - intros Hnone. split.
    + by apply approve_decision_absent.
    + by apply reject_decision_absent.
  - intros [_ _ Hdis] [e He]. destruct (Hdis i) as [Hp | Hr]; [done |].
    by rewrite Hr in He.
Qed.

Lemma approve_reject_first_call_wins_witness :
  pending_decisions pending_request.2 !! "d-1" = Some pending_request.1 ∧
  pending_decisions pending_request.2 !! "d-2" = None ∧
  (approve_decision "d-1" (Some "ok") 110%Z 111%Z pending_request.2).1
    = true ∧
  (reject_decision "d-1" None 120%Z 121%Z
     (approve_decision "d-1" (Some "ok") 110%Z 111%Z pending_request.2).2).1
    = false ∧
  (approve_decision "d-2" (Some "ok") 110%Z 111%Z pending_request.2).1
    = false.
Proof.
  destruct (approve_reject_first_call_wins "d-1" (Some "ok") None
              110%Z 111%Z 120%Z 121%Z pending_request.2)
    as (Happrove & _ & _ & _).
  destruct (Happrove pending_request.1 eq_refl)
    as (s1 & Hrun & _ & _ & _ & _ & Hrej & _).
  destruct (approve_reject_first_call_wins "d-2" (Some "ok") None
              110%Z 111%Z 120%Z 121%Z pending_request.2)
    as (_ & _ & Habsent & _).
  destruct (Habsent eq_refl) as [Hunknown _].
  split; [reflexivity |]. split; [reflexivity |].
  rewrite Hrun. cbn [fst snd]. rewrite Hrej, Hunknown. done.
Defined.

(** What [get_decision] returns is the dictionary of [find_decision]. *)
Lemma get_decision_eq (i : string) (s : HITLManager) :
  get_decision i s = (to_dict <$> find_decision s i, s).
Proof.
  unfold get_decision, find_decision, bind, gets, ret.
  destruct (pending_decisions s !! i); [done |].
  by destruct (resolved_decisions s !! i).
Qed.

(** C3.  Let [i] be pending in [s] with decision [d].
    - Once [approve_decision] or [reject_decision] has resolved [i], the
      firing of its timeout returns without changing the manager, and after
      any later sequence of calls the decision stored under [i] is still
      the approved, respectively rejected, one: status and [resolved_at]
      are those of the resolution.
    - When the timeout fires on [s] itself, [i] leaves the pending index
      and the resolved index holds [d] with status [TIMEOUT] and
      [resolved_at] set to the time of the firing; no later sequence of
      calls changes that either. *)
Theorem resolution_before_timeout_wins (i : string) (d : HITLDecision)
    (s : HITLManager) :
  pending_decisions s !! i = Some d →
  (∀ c t1 t2, ∃ s1, approve_decision i c t1 t2 s = (true, s1) ∧
     (∀ ts t3 t4, _handle_timeout i ts t3 t4 s1 = (tt, s1)) ∧
     ∀ ops, fresh_uuids ops s1 = true →
       find_decision (run ops s1) i = Some (approved d c t1) ∧
       status (approved d c t1) = APPROVED ∧
       resolved_at (approved d c t1) = Some t1) ∧
  (∀ c t1 t2, ∃ s1, reject_decision i c t1 t2 s = (true, s1) ∧
     (∀ ts t3 t4, _handle_timeout i ts t3 t4 s1 = (tt, s1)) ∧
     ∀ ops, fresh_uuids ops s1 = true →
       find_decision (run ops s1) i = Some (rejected d c t1) ∧
       status (rejected d c t1) = REJECTED ∧
       resolved_at (rejected d c t1) = Some t1) ∧
  (∀ ts t1 t2, ∃ s1, _handle_timeout i ts t1 t2 s = (tt, s1) ∧
     pending_decisions s1 !! i = None ∧
     resolved_decisions s1 !! i = Some (timed_out d ts t1) ∧
     status (timed_out d ts t1) = TIMEOUT ∧
     resolved_at (timed_out d ts t1) = Some t1 ∧
     ∀ ops, fresh_uuids ops s1 = true →
       find_decision (run ops s1) i = Some (timed_out d ts t1)).
Proof.
  intros Hd.
  assert (∀ e now ops, fresh_uuids ops (resolve_with i e now s) = true →
            find_decision (run ops (resolve_with i e now s)) i = Some e)
    as Hlater.
  { intros e now ops Hops.
    destruct (resolve_with_lookup i e now s) as [Hp Hr].
    destruct (run_resolved_stable ops _ i e Hops Hp Hr) as [Hp' Hr'].
    unfold find_decision. by rewrite Hp'. }
  split_and!.
  - intros c t1 t2. eexists. split; [by apply approve_decision_pending |].
    split; [| intros ops Hops; split_and!; [by apply Hlater | done | done]].
    intros ts t3 t4. apply _handle_timeout_absent.
    apply resolve_with_lookup.
  - intros c t1 t2. eexists. split; [by apply reject_decision_pending |].
    split; [| intros ops Hops; split_and!; [by apply Hlater | done | done]].
    intros ts t3 t4. apply _handle_timeout_absent.
    apply resolve_with_lookup.
  - intros ts t1 t2. eexists. split; [by apply _handle_timeout_pending |].
    destruct (resolve_with_lookup i (timed_out d ts t1) t2 s) as [Hp Hr].
    split_and!; try done. intros ops Hops. by apply Hlater.
Qed.

Lemma resolution_before_timeout_wins_witness :
  pending_decisions pending_request.2 !! "d-1" = Some pending_request.1 ∧
  k_status <$>
    (get_decision "d-1"
       (run [Approve "d-1" (Some "ok") 110%Z 111%Z;
             TimeoutFires "d-1" 1 120%Z 121%Z] pending_request.2)).1
    = Some APPROVED.
Proof.
  split; [reflexivity |].
  destruct (resolution_before_timeout_wins "d-1" pending_request.1
              pending_request.2 eq_refl) as (Happrove & _ & _).
  destruct (Happrove (Some "ok") 110%Z 111%Z) as (s1 & Hrun & _ & Hlater).
  destruct (Hlater [TimeoutFires "d-1" 1 120%Z 121%Z] eq_refl)
    as (Hfind & Hst & _).
  rewrite get_decision_eq. cbn [fst run exec]. rewrite Hrun. cbn [snd].
  cbn [run exec] in Hfind. rewrite Hfind. cbn [fmap option_fmap option_map].
  by rewrite <- Hst.
Defined.

(** ** The invariant over sequences of calls *)

(** C4.  Start from the empty manager and make any sequence [ops] of calls
    ([create_decision], [approve_decision], [reject_decision], timeout
    firings, and the two policy setters), each [create_decision] drawing an
    unused id.  Then, in the manager [s] reached:
    - every decision of the pending index has status [PENDING] and no
      [resolved_at]; every decision of the resolved index has status
      [APPROVED], [REJECTED], [TIMEOUT] or [BYPASSED] and a [resolved_at];
      no id is in both indices;
    - over any further sequence [ops'] of such calls, a decision [d] stored
      under [i] is still stored under [i], as [d'], and either [d' = d] or
      [d] was [PENDING] without [resolved_at] and [d'] is [APPROVED],
      [REJECTED] or [TIMEOUT] with [resolved_at] set.  Hence a decision is
      [BYPASSED] later only if it is so now, a decision that is not
      [PENDING] stays exactly as it is, and a [resolved_at] that is set
      keeps its value. *)
Theorem coordinator_invariant (ops : list Op) :
  fresh_uuids ops HITLManager_init = true →
  let s := run ops HITLManager_init in
  coordinator_inv s ∧
  ∀ ops' i d, fresh_uuids ops' s = true → find_decision s i = Some d →
    ∃ d', find_decision (run ops' s) i = Some d' ∧
      evolves d d' ∧
      (status d' = BYPASSED → status d = BYPASSED) ∧
      (status d ≠ PENDING → d' = d) ∧
      (∀ t, resolved_at d = Some t → resolved_at d' = Some t).
Proof.
  intros Hfresh s.
  assert (coordinator_inv s) as Hinv.
  { apply run_inv; [done | apply HITLManager_init_inv]. }
  split; [done |].
  intros ops' i d Hfresh' Hfind.
  destruct (run_evolves ops' s i d Hfresh' Hinv Hfind) as (d' & Hfind' & Hev).
  exists d'. split_and!; try done.
  - destruct Hev as [-> | (_ & _ & Hres & _)]; [done |].
    intros Hby. rewrite Hby in Hres. revert Hres. unfold resolution.
    rewrite !elem_of_cons, elem_of_nil. intuition congruence.
  - by destruct Hev as [-> | (Hs & _)].
  - intros t Ht. destruct Hev as [-> | (_ & Ha & _)]; [done | congruence].
Qed.

Lemma coordinator_invariant_witness :
  fresh_uuids session HITLManager_init = true ∧
  coordinator_inv (run session HITLManager_init) ∧
  ∃ d', find_decision
          (run [TimeoutFires "d-2" 1 120%Z 121%Z;
                Reject "d-1" None 122%Z 123%Z]
             (run session HITLManager_init)) "d-1" = Some d' ∧
        status d' = APPROVED.
Proof.
  split; [reflexivity |].
  destruct (coordinator_invariant session eq_refl) as [Hinv Hlater].
  split; [exact Hinv |].
  destruct (Hlater [TimeoutFires "d-2" 1 120%Z 121%Z;
                    Reject "d-1" None 122%Z 123%Z] "d-1"
              (approved (HITLDecision_init "d-1" "portfolio" "allocation"
                           [("risk", "High")] "Portfolio allocation" PENDING
                           "default_user" 5 100%Z) (Some "ok") 110%Z)
              eq_refl eq_refl)
    as (d' & Hfind & _ & _ & Hsame & _).
  exists d'. split; [exact Hfind |].
  rewrite (Hsame ltac:(discriminate)). reflexivity.
Defined.

(** ** The bound on the history *)

Lemma exec_history (op : Op) (s : HITLManager) :
  length (decision_history s) ≤ 1000 →
  length (decision_history (exec op s)) ≤ 1000.
Proof.
  intros Hlen.
  destruct op as [a ty data descr u ts uuid4 t1 t2 t3 | i c t1 t2
                 | i c t1 t2 | i ts t1 t2 | b | a b]; cbn [exec].
  - destruct (is_hitl_required a s).1 eqn:Hreq.
    + by rewrite create_decision_pending.
    + rewrite create_decision_bypass by done.
      cbn [snd decision_history]. rewrite length_take. lia.
  - destruct (pending_decisions s !! i) as [d|] eqn:Hd.
    + rewrite (approve_decision_pending _ _ _ _ _ d) by done.
      cbn [snd decision_history resolve_with]. rewrite length_take. lia.
    + by rewrite approve_decision_absent.
  - destruct (pending_decisions s !! i) as [d|] eqn:Hd.
    + rewrite (reject_decision_pending _ _ _ _ _ d) by done.
      cbn [snd decision_history resolve_with]. rewrite length_take. lia.
    + by rewrite reject_decision_absent.
  - destruct (pending_decisions s !! i) as [d|] eqn:Hd.
    + rewrite (_handle_timeout_pending _ _ _ _ _ d) by done.
      cbn [snd decision_history resolve_with]. rewrite length_take. lia.
    + by rewrite _handle_timeout_absent.
  - done.
  - done.
Qed.

Lemma run_history (ops : list Op) (s : HITLManager) :
  length (decision_history s) ≤ 1000 →
  length (decision_history (run ops s)) ≤ 1000.
Proof.
  revert s. induction ops as [| op ops IH]; intros s Hlen; [done |].
  cbn [run]. apply IH. by apply exec_history.
Qed.

(** C7.  [_add_to_history] leaves at most 1000 entries whatever the history
    was, keeps the new entry, at the front, and drops the excess from the
    other end, where the oldest entries are: the new history followed by
    the dropped entries is the new entry followed by the old history.
    Every call keeps a history of at most 1000 entries within that bound,
    so after any sequence of calls from the empty manager the history has
    at most 1000 entries. *)
Theorem history_is_capped :
  (∀ d now s, ∃ s' evicted,
     _add_to_history d now s = (tt, s') ∧
     length (decision_history s') ≤ 1000 ∧
     decision_history s' !! 0 = Some (history_entry d now) ∧
     history_entry d now :: decision_history s =
       (decision_history s' ++ evicted)%list ∧
     length evicted = length (decision_history s) + 1 - 1000 ∧
     pending_decisions s' = pending_decisions s ∧
     resolved_decisions s' = resolved_decisions s) ∧
  (∀ op s, length (decision_history s) ≤ 1000 →
     length (decision_history (exec op s)) ≤ 1000) ∧
  (∀ ops, length (decision_history (run ops HITLManager_init)) ≤ 1000).
Proof.
  split_and!.
  - intros d now s.
    exists (set_decision_history
              (take 1000 (history_entry d now :: decision_history s)) s),
           (drop 1000 (history_entry d now :: decision_history s)).
    split; [apply _add_to_history_eq |].
    cbn [decision_history set_decision_history pending_decisions
         resolved_decisions].
    split_and!; try done.
    + rewrite length_take. lia.
    + by rewrite take_drop.
    + rewrite length_drop. cbn [length]. lia.
  - apply exec_history.
  - intros ops. apply run_history. cbn. lia.
Qed.

Lemma history_is_capped_witness :
  length (decision_history full_history) ≤ 1000 ∧
  length (decision_history
            (exec (Approve "d-1" None 110%Z 111%Z) full_history)) ≤ 1000.
Proof.
  assert (length (decision_history full_history) ≤ 1000) as Hlen.
  { apply Nat.leb_le. vm_compute. reflexivity. }
  destruct history_is_capped as (_ & Hexec & _).
  split; [exact Hlen | exact (Hexec _ _ Hlen)].
Defined.

(** ** Reads *)

Lemma after_read_id (r : Read) (s : HITLManager) : after_read r s = s.
Proof.
  destruct r as [i | a | a l]; cbn [after_read].
  - by rewrite get_decision_eq.
  - done.
  - done.
Qed.

Lemma after_reads_id (rs : list Read) (s : HITLManager) :
  after_reads rs s = s.
Proof.
  induction rs as [| r rs IH]; [done |].
  cbn [after_reads]. by rewrite after_read_id.
Qed.

(** C8.  [get_decision], [get_pending_decisions] and
    [get_decision_history] return the manager they were given: the pending
    index, the resolved index, the history and the policy are those of
    before.  So after any sequence of reads the manager is unchanged, and
    [get_decision] with the same id returns the snapshot it returned
    before them. *)
Theorem reads_are_pure (s : HITLManager) :
  (∀ i, (get_decision i s).2 = s) ∧
  (∀ a, (get_pending_decisions a s).2 = s) ∧
  (∀ a l, (get_decision_history a l s).2 = s) ∧
  (∀ rs i, after_reads rs s = s ∧
     (get_decision i (after_reads rs s)).1 = (get_decision i s).1) ∧
  (∀ i, (get_decision i (get_decision i s).2).1 = (get_decision i s).1).
Proof.
  split_and!.
  - intros i. by rewrite get_decision_eq.
  - done.
  - done.
  - intros rs i. by rewrite after_reads_id.
  - intros i. by rewrite !get_decision_eq.
Qed.

(** ** The gate of the HITL portfolio workflow *)

Lemma gate_next (st : HITLPortfolio.PortfolioOptimizerState)
    (d : HITLStatus) :
  HITLPortfolio.hitl_approval_status st = HITLStatus_value d →
  next_target HITLPortfolio._create_hitl_graph
    HITLPortfolio.wait_for_hitl_decision st =
  Some match d with
       | APPROVED | BYPASSED => Goto HITLPortfolio.finalize_portfolio
       | REJECTED => Goto HITLPortfolio.reason_about_strategy
       | PENDING | TIMEOUT => END
       end.
Proof.
  intros Hst. unfold next_target. cbn [HITLPortfolio._create_hitl_graph].
  unfold HITLPortfolio._check_hitl_decision. rewrite Hst. by destruct d.
Qed.

(** C5.  Let the state [st] at the conditional edge that leaves
    [wait_for_hitl_decision] carry in [hitl_approval_status] the value of
    the status [d].
    - [APPROVED] or [BYPASSED]: the engine goes to [finalize_portfolio] and
      runs it on [st].
    - [REJECTED]: the engine goes back to [reason_about_strategy] and runs
      it on [st]; from there the edges lead through
      [generate_recommendations], [optimize_portfolio] and
      [request_hitl_approval] to [wait_for_hitl_decision] again.
    - [PENDING]: the edge leads to [END] and the invocation finishes with
      [st] itself, whatever fuel is left; nothing waits.
    - [TIMEOUT], which the specification leaves to the caller, is routed
      as [PENDING]. *)
Theorem gate_routing
    (node_fn : HITLPortfolio.Node → HITLPortfolio.PortfolioOptimizerState →
               option HITLPortfolio.PortfolioOptimizerState)
    (st : HITLPortfolio.PortfolioOptimizerState) (d : HITLStatus) :
  HITLPortfolio.hitl_approval_status st = HITLStatus_value d →
  let edges := HITLPortfolio._create_hitl_graph in
  let gate := HITLPortfolio.wait_for_hitl_decision in
  let run_node fuel n :=
    match node_fn n st with
    | None => Raised
    | Some st' => continue_from edges node_fn fuel n st'
    end in
  match d with
  | APPROVED | BYPASSED =>
      next_target edges gate st =
        Some (Goto HITLPortfolio.finalize_portfolio) ∧
      ∀ fuel, continue_from edges node_fn (S fuel) gate st =
              run_node fuel HITLPortfolio.finalize_portfolio
  | REJECTED =>
      next_target edges gate st =
        Some (Goto HITLPortfolio.reason_about_strategy) ∧
      (∀ fuel, continue_from edges node_fn (S fuel) gate st =
               run_node fuel HITLPortfolio.reason_about_strategy) ∧
      HITLPortfolio.edge_to HITLPortfolio.reason_about_strategy
        HITLPortfolio.generate_recommendations ∧
      HITLPortfolio.edge_to HITLPortfolio.generate_recommendations
        HITLPortfolio.optimize_portfolio ∧
      HITLPortfolio.edge_to HITLPortfolio.optimize_portfolio
        HITLPortfolio.request_hitl_approval ∧
      HITLPortfolio.edge_to HITLPortfolio.request_hitl_approval gate
  | PENDING | TIMEOUT =>
      next_target edges gate st = Some END ∧
      ∀ fuel, continue_from edges node_fn fuel gate st = Finished st
  end.
Proof.
  intros Hst edges gate run_node.
  pose proof (gate_next st d Hst) as Hnext. fold edges gate in Hnext.
  destruct d.
  - split; [done |]. intros [| fuel]; cbn [continue_from]; by rewrite Hnext.
  - split; [done |]. intros fuel. cbn [continue_from]. by rewrite Hnext.
  - split; [done |]. split.
    { intros fuel. cbn [continue_from]. by rewrite Hnext. }
    split_and!.
    + by exists st.
    + by exists st.
    + exists (HITLPortfolio.mkPortfolioOptimizerState [] 0%Q "" "" [] [] []
                true "" None ∅ []). reflexivity.
    + by exists st.
  - split; [done |]. intros [| fuel]; cbn [continue_from]; by rewrite Hnext.
  - split; [done |]. intros fuel. cbn [continue_from]. by rewrite Hnext.
Qed.

Lemma gate_routing_witness :
  HITLPortfolio.hitl_approval_status suspended_state
    = HITLStatus_value PENDING ∧
  continue_from HITLPortfolio._create_hitl_graph (λ _ st, Some st) 7
    HITLPortfolio.wait_for_hitl_decision suspended_state
    = Finished suspended_state.
Proof.
  split; [reflexivity |].
  exact (proj2 (gate_routing (λ _ st, Some st) suspended_state PENDING
                  eq_refl) 7).
Defined.

(** ** Input analysis of the ReAct portfolio workflow *)

Lemma append_assoc (a b c : string) : (a +:+ b) +:+ c = a +:+ b +:+ c.
Proof.
  induction a as [| x a IH]; [done |].
  change (String x ((a +:+ b) +:+ c) = String x (a +:+ b +:+ c)).
  by rewrite IH.
Qed.

(** C9, as the code has it.  [_analyze_inputs] returns for every state:
    a timeframe outside Short, Medium, Long is replaced by Medium and one
    inside is kept; likewise the risk level with Low, Medium, High; the
    budget is returned as it came, also below 1000, where the step only
    writes a warning into the reasoning it appends to the trace and to the
    messages.  The edge that leaves the node is the unconditional one to
    [fetch_market_data], and the engine runs that node on the state
    returned. *)
Theorem analyze_inputs_recovers (format_money : number → string)
    (st : ReAct.AgentState) :
  let st' := ReAct._analyze_inputs format_money st in
  ReAct.timeframe st' =
    (if bool_decide (ReAct.timeframe st ∈ ["Short"; "Medium"; "Long"])
     then ReAct.timeframe st else "Medium") ∧
  ReAct.timeframe st' ∈ ["Short"; "Medium"; "Long"] ∧
  ReAct.risk_level st' =
    (if bool_decide (ReAct.risk_level st ∈ ["Low"; "Medium"; "High"])
     then ReAct.risk_level st else "Medium") ∧
  ReAct.risk_level st' ∈ ["Low"; "Medium"; "High"] ∧
  ReAct.budget st' = ReAct.budget st ∧
  (∃ reasoning,
     ReAct.reasoning_trace st' =
       (ReAct.reasoning_trace st ++ [reasoning])%list ∧
     ReAct.messages st' =
       (ReAct.messages st ++ [AIMessage reasoning])%list ∧
     (lt_number (ReAct.budget st) 1000%Q = true →
      occurs_in " ⚠️ WARNING: Budget below recommended minimum of $1,000"
        reasoning)) ∧
  next_target ReAct._create_graph ReAct.analyze_inputs st' =
    Some (Goto ReAct.fetch_market_data) ∧
  ∀ rest fuel,
    ainvoke ReAct._create_graph (react_nodes format_money rest)
      (S (S fuel)) ReAct.analyze_inputs st =
    match rest ReAct.fetch_market_data st' with
    | None => Raised
    | Some st'' =>
        continue_from ReAct._create_graph (react_nodes format_money rest)
          fuel ReAct.fetch_market_data st''
    end.
Proof.
  intros st'. split_and!.
  7: reflexivity.
  7: intros rest fuel; reflexivity.
  all: subst st'; unfold ReAct._analyze_inputs.
  all: set (header :=
              "🔍 ANALYZE: Received optimization request with budget=$"
              +:+ _).
  all: set (tfs := ["Short"; "Medium"; "Long"]).
  all: set (rls := ["Low"; "Medium"; "High"]).
  all: assert ("Medium" ∈ tfs) as Hmtf by (subst tfs; in_list).
  all: assert ("Medium" ∈ rls) as Hmrl by (subst rls; in_list).
  all: destruct (bool_decide (ReAct.timeframe st ∉ tfs)) eqn:Htf;
    cbn [ReAct.risk_level ReAct.set_timeframe];
    destruct (bool_decide (ReAct.risk_level st ∉ rls)) eqn:Hrl;
    cbn [ReAct.timeframe ReAct.risk_level ReAct.budget ReAct.narrate
         ReAct.set_timeframe ReAct.set_risk_level ReAct.reasoning_trace
         ReAct.messages];
    first [apply bool_decide_eq_true_1 in Htf
          | apply bool_decide_eq_false_1 in Htf];
    first [apply bool_decide_eq_true_1 in Hrl
          | apply bool_decide_eq_false_1 in Hrl].
  all: try done.
  all: try (case_bool_decide; first [done | exfalso; tauto]).
  all: try (by apply dec_stable).
  all: eexists; split; [reflexivity |]; split; [reflexivity |].
  all: intros Hlow; rewrite Hlow; exists header; eexists.
  all: rewrite ?append_assoc; reflexivity.
Qed.

Lemma analyze_inputs_recovers_witness :
  lt_number (ReAct.budget malformed_request) 1000%Q = true ∧
  let st' := ReAct._analyze_inputs (λ _, "500.00") malformed_request in
  ReAct.timeframe st' = "Medium" ∧
  ReAct.risk_level st' = "Medium" ∧
  ReAct.budget st' = 500%Q.
Proof.
  split; [reflexivity |].
  destruct (analyze_inputs_recovers (λ _, "500.00") malformed_request)
    as (Htf & _ & Hrl & _ & Hb & _).
  cbn zeta. rewrite Htf, Hrl, Hb. split_and!; reflexivity.
Defined.

(** C9, as the specification words it, fails on the budget: a budget of 500
    comes out of the step as 500, still below the minimum. *)
Lemma analyze_inputs_budget_not_clamped :
  lt_number (ReAct.budget malformed_request) 1000%Q = true ∧
  ReAct.budget (ReAct._analyze_inputs (λ _, "500.00") malformed_request)
    = 500%Q ∧
  lt_number
    (ReAct.budget (ReAct._analyze_inputs (λ _, "500.00") malformed_request))
    1000%Q = true.
Proof. split_and!; reflexivity. Qed.

(** ** More on the manager: what a call stores *)

Lemma change_refl (s : HITLManager) : change s s.
Proof.
  destruct s as [p r h g o].
  exact (change_policy (mkHITLManager p r h g o) g o).
Qed.

Lemma exec_change (op : Op) (s : HITLManager) :
  fresh_uuid op s = true → change s (exec op s).
Proof.
  destruct op as [a ty data descr u ts uuid4 t1 t2 t3 | i c t1 t2
                 | i c t1 t2 | i ts t1 t2 | b | a b];
    cbn [fresh_uuid exec]; intros Hfresh.
  - destruct (is_hitl_required a s).1 eqn:Hreq.
    + rewrite create_decision_pending by done. by apply change_pending.
    + rewrite create_decision_bypass by done. by apply change_bypass.
  - destruct (pending_decisions s !! i) as [d|] eqn:Hd.
    + rewrite (approve_decision_pending _ _ _ _ _ d) by done.
      eapply change_resolve; [done | constructor].
    + rewrite approve_decision_absent by done. apply change_refl.
  - destruct (pending_decisions s !! i) as [d|] eqn:Hd.
    + rewrite (reject_decision_pending _ _ _ _ _ d) by done.
      eapply change_resolve; [done | constructor].
    + rewrite reject_decision_absent by done. apply change_refl.
  - destruct (pending_decisions s !! i) as [d|] eqn:Hd.
    + rewrite (_handle_timeout_pending _ _ _ _ _ d) by done.
      eapply change_resolve; [done | constructor].
    + rewrite _handle_timeout_absent by done. apply change_refl.
  - apply change_policy.
  - apply change_policy.
Qed.

Lemma resolved_form_same_request (d d' : HITLDecision) :
  resolved_form d d' → same_request d d'.
Proof. by intros [c t | c t | ts t]. Qed.

Lemma same_request_refl (d : HITLDecision) : same_request d d.
Proof. done. Qed.

Lemma same_request_trans (d1 d2 d3 : HITLDecision) :
  same_request d1 d2 → same_request d2 d3 → same_request d1 d3.
Proof.
  unfold same_request. intros (?&?&?&?&?&?&?&?) (?&?&?&?&?&?&?&?).
  split_and!; congruence.
Qed.

Lemma in_take_in {A : Type} (x : A) (n : nat) (l : list A) :
  x ∈ take n l → x ∈ l.
Proof. apply subseteq_take. Qed.

Lemma store_inv_init : store_inv HITLManager_init.
Proof.
  split; cbn.
  - intros i d. by rewrite lookup_empty.
  - intros i d. by rewrite lookup_empty.
  - intros e He. by apply elem_of_nil in He.
  - by rewrite map_size_empty.
Qed.

Lemma change_store_inv (s s' : HITLManager) :
  change s s' → coordinator_inv s → store_inv s → store_inv s'.
Proof.
  intros Hch [Hp Hr Hdis] [Hkp Hkr Hsnap Hlen].
  destruct Hch as [g o | i d d' now Hd Hform
                  | a ty data descr u ts uuid4 t1 t2 t3 Hfresh
                  | a ty data descr u ts uuid4 t1 Hfresh].
  - by split.
  - assert (resolved_decisions s !! i = None) as Hri.
    { destruct (Hdis i) as [Hn | Hn]; [congruence | done]. }
    assert (decision_id d' = i) as Hid.
    { destruct (resolved_form_same_request d d' Hform) as [-> _]. eauto. }
    split; cbn [pending_decisions resolved_decisions decision_history
                resolve_with].
    + intros j e He. apply lookup_delete_Some in He as [_ He]. eauto.
    + intros j e He. apply lookup_insert_Some in He as [[<- <-] | [_ He]];
        eauto.
    + intros e He. apply in_take_in in He.
      apply elem_of_cons in He as [-> | He].
      * exists d', now. cbn. rewrite Hid. by rewrite lookup_insert_eq.
      * destruct (Hsnap e He) as (d0 & t & Hd0 & Heq).
        exists d0, t. split; [| done].
        rewrite lookup_insert_ne; [done |]. intros Hx.
        rewrite Hx in Hri. congruence.
    + rewrite length_take, map_size_insert_None by done. cbn [length]. lia.
  - apply unused_spec in Hfresh as [Hfp Hfr].
    split; cbn [pending_decisions resolved_decisions decision_history].
    + done.
    + intros j e He. apply lookup_insert_Some in He as [[<- <-] | [_ He]];
        eauto.
    + intros e He. apply in_take_in in He.
      apply elem_of_cons in He as [-> | He].
      * eexists _, t3. cbn. by rewrite lookup_insert_eq.
      * destruct (Hsnap e He) as (d0 & t & Hd0 & Heq).
        exists d0, t. split; [| done].
        rewrite lookup_insert_ne; [done |]. intros Hx.
        rewrite Hx in Hfr. congruence.
    + rewrite length_take, map_size_insert_None by done. cbn [length]. lia.
  - split; cbn [pending_decisions resolved_decisions decision_history];
      try done.
    intros j e He. apply lookup_insert_Some in He as [[<- <-] | [_ He]];
      eauto.
Qed.

Lemma run_store_inv (ops : list Op) (s : HITLManager) :
  fresh_uuids ops s = true → coordinator_inv s → store_inv s →
  store_inv (run ops s).
Proof.
  revert s. induction ops as [| op ops IH]; intros s Hfresh Hinv Hst;
    [done |].
  cbn in Hfresh |- *. apply andb_true_iff in Hfresh as [Hop Hrest].
  apply IH; [done | |].
  - eapply effect_inv; [by apply exec_effect | done].
  - eapply change_store_inv; [by apply exec_change | done | done].
Qed.

(** X1.  When the global flag is false and the override of the agent is
    true, [create_decision] returns a [PENDING] decision without
    [resolved_at] and without a note, stores it in the pending index under
    the id drawn, and leaves the resolved index and the history as they
    were: a request is not logged before it is resolved.  [get_decision]
    with that id and [get_pending_decisions] then show it. *)
Theorem create_decision_gated (a ty : string) (data : payload)
    (descr u : string) (ts : Z) (uuid4 : string) (t1 t2 t3 : datetime)
    (s : HITLManager) :
  global_autonomous_mode s = false →
  agent_hitl_overrides s !! a = Some true →
  ∃ d s', create_decision a ty data descr u ts uuid4 t1 t2 t3 s = (d, s') ∧
    status d = PENDING ∧
    resolved_at d = None ∧
    resolution_reason d = None ∧
    decision_id d = uuid4 ∧
    timeout_seconds d = ts ∧
    pending_decisions s' !! uuid4 = Some d ∧
    resolved_decisions s' = resolved_decisions s ∧
    decision_history s' = decision_history s ∧
    (get_decision uuid4 s').1 = Some (to_dict d) ∧
    to_dict d ∈ (get_pending_decisions None s').1.
Proof.
  intros Hglobal Hover.
  rewrite create_decision_pending
    by (by rewrite is_hitl_required_eq, Hglobal, Hover).
  cbn zeta. eexists _, _. split; [done |].
  cbn [pending_decisions resolved_decisions decision_history].
  split_and!; try done.
  - apply lookup_insert_eq.
  - rewrite get_decision_eq. unfold find_decision.
    cbn [pending_decisions fst]. by rewrite lookup_insert_eq.
  - unfold get_pending_decisions, bind, gets, ret.
    cbn [truthy fst pending_decisions].
    apply list_elem_of_fmap. eexists. split; [done |].
    apply list_elem_of_fmap. eexists (uuid4, _). split; [done |].
    apply elem_of_map_to_list. apply lookup_insert_eq.
Qed.

Lemma create_decision_gated_witness :
  global_autonomous_mode gating_manager = false ∧
  agent_hitl_overrides gating_manager !! "portfolio" = Some true ∧
  status pending_request.1 = PENDING.
Proof.
  split; [reflexivity |]. split; [reflexivity |].
  destruct (create_decision_gated "portfolio" "allocation"
              [("risk", "High")] "Portfolio allocation" "default_user" 5
              "d-1" 100%Z 101%Z 102%Z gating_manager eq_refl eq_refl)
    as (d & s' & Hrun & Hst & _).
  unfold pending_request. rewrite Hrun. exact Hst.
Defined.

(** X2.  [is_hitl_required] answers true exactly when the global flag is
    false and the override of the agent is true.  Setting the override of
    an agent [b] changes the answer for [b] only; setting the global flag
    forces the answer false for every agent, and clearing it gives back
    what the overrides say, which the flag never touches. *)
Theorem is_hitl_required_policy (a : string) (s : HITLManager) :
  ((is_hitl_required a s).1 = true ↔
   global_autonomous_mode s = false ∧
   agent_hitl_overrides s !! a = Some true) ∧
  (∀ b v, (is_hitl_required a (set_agent_hitl_override b v s).2).1 =
     if global_autonomous_mode s then false
     else if bool_decide (a = b) then v else (is_hitl_required a s).1) ∧
  (is_hitl_required a (set_global_autonomous_mode true s).2).1 = false ∧
  (is_hitl_required a (set_global_autonomous_mode false s).2).1 =
    default false (agent_hitl_overrides s !! a) ∧
  (∀ g, agent_hitl_overrides (set_global_autonomous_mode g s).2 =
        agent_hitl_overrides s).
Proof.
  split_and!.
  - rewrite is_hitl_required_eq. cbn [fst].
    destruct (global_autonomous_mode s); [intuition congruence |].
    destruct (agent_hitl_overrides s !! a) as [[] |]; cbn;
      intuition congruence.
  - intros b v. rewrite !is_hitl_required_eq.
    cbn [fst snd set_agent_hitl_override modify global_autonomous_mode
         agent_hitl_overrides].
    destruct (global_autonomous_mode s); [done |].
    case_bool_decide as Hab.
    + subst b. by rewrite lookup_insert_eq.
    + by rewrite lookup_insert_ne.
  - by rewrite is_hitl_required_eq.
  - by rewrite is_hitl_required_eq.
  - done.
Qed.

Lemma is_hitl_required_policy_witness :
  (is_hitl_required "portfolio" gating_manager).1 = true ∧
  (is_hitl_required "timing" gating_manager).1 = false ∧
  (is_hitl_required "portfolio"
     (set_global_autonomous_mode true gating_manager).2).1 = false.
Proof.
  destruct (is_hitl_required_policy "portfolio" gating_manager)
    as (Hiff & _ & Hglobal & _).
  split; [apply Hiff; split; reflexivity |].
  split; [reflexivity | exact Hglobal].
Defined.

(** ** Serialisation *)

Lemma from_dict_to_dict (d : HITLDecision) : from_dict (to_dict d) = d.
Proof. by destruct d as [? ? ? ? ? ? ? ? ? [t |] ? ?]. Qed.

(** X3.  [from_dict] undoes [to_dict]; it reads a history entry as the
    decision the entry was made from, the key ["timestamp"] being ignored;
    and [to_dict] undoes [from_dict] up to that key. *)
Theorem dict_round_trip :
  (∀ d, from_dict (to_dict d) = d) ∧
  (∀ d t, from_dict (history_entry d t) = d) ∧
  (∀ e, k_timestamp e = None → to_dict (from_dict e) = e) ∧
  (∀ e t, to_dict (from_dict (set_timestamp t e)) = to_dict (from_dict e)).
Proof.
  split_and!.
  - apply from_dict_to_dict.
  - by intros [? ? ? ? ? ? ? ? ? [t' |] ? ?] t.
  - intros [? ? ? ? ? ? ? ? ? [t' |] ? ? ts]; cbn; by intros ->.
  - by intros [? ? ? ? ? ? ? ? ? [t' |] ? ? ts] t.
Qed.

Lemma dict_round_trip_witness :
  k_timestamp (to_dict pending_request.1) = None ∧
  to_dict (from_dict (to_dict pending_request.1)) = to_dict pending_request.1.
Proof.
  destruct dict_round_trip as (_ & _ & Hto & _).
  split; [reflexivity | exact (Hto (to_dict pending_request.1) eq_refl)].
Defined.

(** ** The files *)

(** The loop of [_load_data], index by index: each index receives, in the
    order of the file, the decisions of its kind. *)
Lemma load_split (l : list DecisionDict) (s : HITLManager) :
  foldl load_decision s l =
  mkHITLManager
    (foldl (λ m d, <[decision_id d := d]> m) (pending_decisions s)
       (filter (λ d, status d = PENDING) (from_dict <$> l)))
    (foldl (λ m d, <[decision_id d := d]> m) (resolved_decisions s)
       (filter (λ d, status d ≠ PENDING) (from_dict <$> l)))
    (decision_history s) (global_autonomous_mode s)
    (agent_hitl_overrides s).
Proof.
  revert s. induction l as [| e l IH]; intros s; [by destruct s |].
  cbn [foldl fmap list_fmap]. rewrite IH. unfold load_decision.
  rewrite !filter_cons. case_bool_decide as Hst.
  - rewrite decide_True, decide_False by (done || by intros []). done.
  - rewrite decide_False, decide_True by done. done.
Qed.

Lemma filter_all {A : Type} (P : A → Prop) `{!∀ x, Decision (P x)}
    (l : list A) :
  (∀ x, x ∈ l → P x) → filter P l = l.
Proof.
  induction l as [| x l IH]; intros Hall; [done |].
  rewrite filter_cons_True by (apply Hall; left).
  rewrite IH; [done |]. intros y Hy. apply Hall. by right.
Qed.

Lemma filter_none {A : Type} (P : A → Prop) `{!∀ x, Decision (P x)}
    (l : list A) :
  (∀ x, x ∈ l → ¬ P x) → filter P l = [].
Proof.
  induction l as [| x l IH]; intros Hall; [done |].
  rewrite filter_cons_False by (apply Hall; left).
  apply IH. intros y Hy. apply Hall. by right.
Qed.

(** Storing each decision of a list under its own id, in order, builds the
    map of the list read backwards. *)
Lemma foldl_insert_own_id (l : list HITLDecision) :
  foldl (λ m d, <[decision_id d := d]> m) ∅ l =
  (list_to_map (reverse ((λ d, (decision_id d, d)) <$> l))
   : gmap string HITLDecision).
Proof.
  induction l as [| d l IH] using rev_ind; [done |].
  rewrite foldl_app, fmap_app, reverse_app. cbn. by rewrite IH.
Qed.

(** The values of an index, paired with their own ids, are its entries. *)
Lemma values_with_own_id (m : gmap string HITLDecision) :
  (∀ k d, m !! k = Some d → decision_id d = k) →
  (λ d, (decision_id d, d)) <$> (map_to_list m).*2 = map_to_list m.
Proof.
  intros Hkey. rewrite <- list_fmap_compose.
  transitivity (id <$> map_to_list m); [| apply list_fmap_id].
  apply list_fmap_ext. intros i [k d] Hkd. cbn.
  apply list_elem_of_lookup_2, elem_of_map_to_list in Hkd.
  by rewrite (Hkey k d).
Qed.

(** Storing the values of an index under their own ids rebuilds the index,
    in whatever order the values come. *)
Lemma rebuild_index (m : gmap string HITLDecision) (l : list HITLDecision) :
  (∀ k d, m !! k = Some d → decision_id d = k) →
  l ≡ₚ (map_to_list m).*2 →
  foldl (λ m' d, <[decision_id d := d]> m') ∅ l = m.
Proof.
  intros Hkey Hperm. rewrite foldl_insert_own_id.
  transitivity (list_to_map (map_to_list m) : gmap string HITLDecision);
    [| apply list_to_map_to_list].
  assert (reverse ((λ d, (decision_id d, d)) <$> l) ≡ₚ map_to_list m)
    as Hall.
  { rewrite reverse_Permutation, Hperm. by rewrite values_with_own_id. }
  apply list_to_map_proper; [| done].
  rewrite Hall. apply NoDup_fst_map_to_list.
Qed.

Lemma save_load (s : HITLManager) (l : list DecisionDict) :
  coordinator_inv s → store_inv s →
  l ≡ₚ to_dict <$> ((map_to_list (pending_decisions s)).*2
                     ++ (map_to_list (resolved_decisions s)).*2)%list →
  _load_data (mkDisk (Some l) (Some (decision_history s))) HITLManager_init =
  mkHITLManager (pending_decisions s) (resolved_decisions s)
    (decision_history s) false ∅.
Proof.
  intros [Hp Hr _] [Hkp Hkr _ _] Hperm.
  unfold _load_data. cbn [decision_file history_file].
  rewrite load_split.
  cbn [HITLManager_init pending_decisions resolved_decisions
       set_decision_history decision_history global_autonomous_mode
       agent_hitl_overrides].
  assert (from_dict <$> l ≡ₚ
          (map_to_list (pending_decisions s)).*2
          ++ (map_to_list (resolved_decisions s)).*2) as Hdec.
  { rewrite Hperm, <- list_fmap_compose.
    rewrite (list_fmap_ext (from_dict ∘ to_dict) id)
      by (intros i d _; apply from_dict_to_dict).
    by rewrite list_fmap_id. }
  assert (∀ d, d ∈ (map_to_list (pending_decisions s)).*2 →
               status d = PENDING) as Hallp.
  { intros d Hd. apply list_elem_of_fmap in Hd as ([k d'] & -> & Hin).
    apply elem_of_map_to_list in Hin. by destruct (Hp _ _ Hin). }
  assert (∀ d, d ∈ (map_to_list (resolved_decisions s)).*2 →
               status d ≠ PENDING) as Hallr.
  { intros d Hd. apply list_elem_of_fmap in Hd as ([k d'] & -> & Hin).
    apply elem_of_map_to_list in Hin. destruct (Hr _ _ Hin) as [Ht _].
    revert Ht. unfold terminal. cbn [snd].
    rewrite !elem_of_cons, elem_of_nil. intuition congruence. }
  unfold set_decision_history.
  cbn [pending_decisions resolved_decisions global_autonomous_mode
       agent_hitl_overrides].
  f_equal.
  - apply rebuild_index; [done |].
    rewrite Hdec, filter_app.
    rewrite (filter_all _ _ Hallp).
    rewrite (filter_none _ (map_to_list (resolved_decisions s)).*2).
    + by rewrite app_nil_r.
    + intros d Hd Hst. by apply (Hallr d).
  - apply rebuild_index; [done |].
    rewrite Hdec, filter_app.
    rewrite (filter_none _ (map_to_list (pending_decisions s)).*2).
    + by rewrite (filter_all _ _ Hallr).
    + intros d Hd Hst. apply Hst. by apply Hallp.
Qed.

(** X4.  For a manager [s] reached from the empty one by any sequence of
    calls (each [create_decision] drawing an unused id), loading into a
    new manager what [_save_data] wrote gives back the pending index, the
    resolved index and the history of [s], in whatever order the
    decisions stand in the file.  The policy is not in the files: the new
    manager has the global flag false and no override. *)
Theorem save_load_round_trip (ops : list Op) :
  fresh_uuids ops HITLManager_init = true →
  let s := run ops HITLManager_init in
  (∀ written l,
     decision_file (_save_data s) = Some written → l ≡ₚ written →
     let s' := _load_data (mkDisk (Some l) (history_file (_save_data s)))
                 HITLManager_init in
     pending_decisions s' = pending_decisions s ∧
     resolved_decisions s' = resolved_decisions s ∧
     decision_history s' = decision_history s ∧
     global_autonomous_mode s' = false ∧
     agent_hitl_overrides s' = ∅) ∧
  _load_data (_save_data s) HITLManager_init =
    mkHITLManager (pending_decisions s) (resolved_decisions s)
      (decision_history s) false ∅.
Proof.
  intros Hfresh s.
  assert (coordinator_inv s) as Hinv
    by (apply run_inv; [done | apply HITLManager_init_inv]).
  assert (store_inv s) as Hstore.
  { apply run_store_inv;
      [done | apply HITLManager_init_inv | apply store_inv_init]. }
  split.
  - intros written l [= <-] Hperm. cbn [_save_data history_file].
    by rewrite (save_load s l Hinv Hstore Hperm).
  - by apply (save_load s _ Hinv Hstore).
Qed.

Lemma save_load_round_trip_witness :
  fresh_uuids session HITLManager_init = true ∧
  pending_decisions
    (_load_data (_save_data (run session HITLManager_init))
       HITLManager_init)
  = pending_decisions (run session HITLManager_init).
Proof.
  split; [reflexivity |].
  rewrite (proj2 (save_load_round_trip session eq_refl)). reflexivity.
Defined.

(** ** More on the reads *)

(** X5.  [get_pending_decisions] returns the dictionaries of exactly the
    pending decisions, those of the given agent when one is given; an
    empty agent id counts as none given.  It returns at most as many
    entries as the pending index holds, all of them when no agent is
    given, and in a manager that satisfies the invariant every entry is
    [PENDING] without [resolved_at]. *)
Theorem get_pending_decisions_spec (a : option string) (s : HITLManager) :
  let result := (get_pending_decisions a s).1 in
  (∀ e, e ∈ result ↔
     ∃ i d, pending_decisions s !! i = Some d ∧ e = to_dict d ∧
            (truthy a = true → Some (agent_id d) = a)) ∧
  length result ≤ size (pending_decisions s) ∧
  (truthy a = false → length result = size (pending_decisions s)) ∧
  (get_pending_decisions (Some "") s).1 = (get_pending_decisions None s).1 ∧
  (coordinator_inv s → ∀ e, e ∈ result →
     k_status e = PENDING ∧ k_resolved_at e = None).
Proof.
  intros result. subst result.
  unfold get_pending_decisions, bind, gets, ret. cbn [fst].
  assert (∀ e,
    e ∈ to_dict <$>
      (if truthy a
       then filter (λ d, Some (agent_id d) = a)
              (map_to_list (pending_decisions s)).*2
       else (map_to_list (pending_decisions s)).*2) ↔
    ∃ i d, pending_decisions s !! i = Some d ∧ e = to_dict d ∧
           (truthy a = true → Some (agent_id d) = a)) as Hmem.
  { intros e. rewrite list_elem_of_fmap. split.
    - intros (d & -> & Hd). destruct (truthy a).
      + apply list_elem_of_filter in Hd as [Ha Hd].
        apply list_elem_of_fmap in Hd as ([i d'] & -> & Hin).
        apply elem_of_map_to_list in Hin. by exists i, d'.
      + apply list_elem_of_fmap in Hd as ([i d'] & -> & Hin).
        apply elem_of_map_to_list in Hin. by exists i, d'.
    - intros (i & d & Hd & -> & Ha). exists d. split; [done |].
      assert (d ∈ (map_to_list (pending_decisions s)).*2) as Hin.
      { apply list_elem_of_fmap. exists (i, d). split; [done |].
        by apply elem_of_map_to_list. }
      destruct (truthy a); [| done].
      apply list_elem_of_filter. split; [by apply Ha | done]. }
  split_and!.
  - exact Hmem.
  - rewrite length_fmap, <- length_map_to_list.
    destruct (truthy a).
    + etransitivity; [apply length_filter |]. by rewrite length_fmap.
    + by rewrite length_fmap.
  - intros ->. by rewrite !length_fmap, length_map_to_list.
  - done.
  - intros [Hp _ _] e He. apply Hmem in He as (i & d & Hd & -> & _).
    exact (Hp _ _ Hd).
Qed.

Lemma get_pending_decisions_spec_witness :
  truthy None = false ∧
  coordinator_inv pending_request.2 ∧
  to_dict pending_request.1 ∈ (get_pending_decisions None pending_request.2).1 ∧
  k_status (to_dict pending_request.1) = PENDING ∧
  length (get_pending_decisions None pending_request.2).1 =
    size (pending_decisions pending_request.2).
Proof.
  assert (coordinator_inv pending_request.2) as Hinv.
  { apply (run_inv [SetAgentOverride "portfolio" true;
                    Create "portfolio" "allocation" [("risk", "High")]
                      "Portfolio allocation" "default_user" 5 "d-1" 100%Z
                      101%Z 102%Z] HITLManager_init eq_refl).
    apply HITLManager_init_inv. }
  destruct (get_pending_decisions_spec None pending_request.2)
    as (Hmem & _ & Hall & _ & Hpending).
  assert (to_dict pending_request.1
            ∈ (get_pending_decisions None pending_request.2).1) as Hin.
  { apply Hmem. exists "d-1", pending_request.1.
    split; [reflexivity |]. split; [reflexivity | discriminate]. }
  split; [reflexivity |]. split; [exact Hinv |]. split; [exact Hin |].
  split; [exact (proj1 (Hpending Hinv _ Hin)) | exact (Hall eq_refl)].
Defined.

Lemma slice_to_prefix {A : Type} (l : list A) (limit : Z) :
  slice_to l limit `prefix_of` l.
Proof. unfold slice_to. destruct (0 <=? limit)%Z; apply prefix_take. Qed.

Lemma prefix_elem_of {A : Type} (l1 l2 : list A) (x : A) :
  l1 `prefix_of` l2 → x ∈ l1 → x ∈ l2.
Proof. intros [k ->] Hx. apply elem_of_app. by left. Qed.

(** X6.  [get_decision_history] returns the first entries of the history,
    newest first, restricted to the given agent when one is given (an
    empty id counts as none): for a limit of [n ≥ 0] the first [n] of
    them, so none for 0; for a negative limit [-n] all but the last [n].
    It returns only entries of the history, of the given agent only. *)
Theorem get_decision_history_spec (a : option string) (limit : Z)
    (s : HITLManager) :
  let of_agent :=
    if truthy a
    then filter (λ h, Some (k_agent_id h) = a) (decision_history s)
    else decision_history s in
  let result := (get_decision_history a limit s).1 in
  result `prefix_of` of_agent ∧
  ((0 ≤ limit)%Z →
     length result = min (Z.to_nat limit) (length of_agent)) ∧
  ((limit < 0)%Z →
     length result = length of_agent - Z.to_nat (- limit)) ∧
  (∀ e, e ∈ result → e ∈ decision_history s) ∧
  (truthy a = true → ∀ e, e ∈ result → Some (k_agent_id e) = a) ∧
  (get_decision_history (Some "") limit s).1 =
    (get_decision_history None limit s).1.
Proof.
  intros of_agent result. subst result.
  unfold get_decision_history, bind, gets, ret. cbn [fst]. fold of_agent.
  assert (∀ e, e ∈ of_agent → e ∈ decision_history s) as Hsub.
  { intros e He. subst of_agent. destruct (truthy a); [| done].
    by apply list_elem_of_filter in He as [_ He]. }
  split_and!.
  - apply slice_to_prefix.
  - intros Hlim. unfold slice_to.
    rewrite (proj2 (Z.leb_le 0 limit) Hlim). apply length_take.
  - intros Hlim. unfold slice_to.
    rewrite (proj2 (Z.leb_gt 0 limit) Hlim). rewrite length_take. lia.
  - intros e He. eapply Hsub, prefix_elem_of; [apply slice_to_prefix | done].
  - intros Ha e He.
    assert (e ∈ of_agent) as Hin
      by (eapply prefix_elem_of; [apply slice_to_prefix | done]).
    subst of_agent. rewrite Ha in Hin.
    by apply list_elem_of_filter in Hin as [Hin _].
  - done.
Qed.

Lemma get_decision_history_spec_witness :
  (0 ≤ 1)%Z ∧ (-10 < 0)%Z ∧ truthy (Some "timing") = true ∧
  length (get_decision_history (Some "timing") 1
            (run session HITLManager_init)).1 = 1 ∧
  (get_decision_history None (-10) (run session HITLManager_init)).1 = [].
Proof.
  destruct (get_decision_history_spec (Some "timing") 1
              (run session HITLManager_init)) as (_ & Hpos & _).
  destruct (get_decision_history_spec None (-10)
              (run session HITLManager_init)) as (_ & _ & Hneg & _).
  split; [lia |]. split; [lia |]. split; [reflexivity |].
  split; [rewrite (Hpos ltac:(lia)); reflexivity |].
  apply nil_length_inv. rewrite (Hneg ltac:(lia)). reflexivity.
Defined.

(** X7.  A request that is gated and then approved: with the global flag
    false and the override of the agent [a] true, [create_decision]
    followed by [approve_decision] on the id drawn returns true;
    [get_decision] then shows the decision [APPROVED] with the time of the
    approval, the note ["Approved by user"] and the comments given, the
    request itself unchanged; the id is no longer in the pending index;
    and, [a] not being empty, [get_decision_history] for [a] with a
    positive limit starts with the entry of that approval. *)
Theorem request_then_approve (a ty : string) (data : payload)
    (descr u : string) (ts : Z) (uuid4 : string) (c : option string)
    (t1 t2 t3 t4 t5 : datetime) (limit : Z) (s : HITLManager) :
  global_autonomous_mode s = false →
  agent_hitl_overrides s !! a = Some true →
  a ≠ "" →
  (0 < limit)%Z →
  let d := HITLDecision_init uuid4 a ty data descr PENDING u ts t1 in
  let s1 := (create_decision a ty data descr u ts uuid4 t1 t2 t3 s).2 in
  ∃ s2, approve_decision uuid4 c t4 t5 s1 = (true, s2) ∧
    (get_decision uuid4 s2).1 = Some (to_dict (approved d c t4)) ∧
    status (approved d c t4) = APPROVED ∧
    resolved_at (approved d c t4) = Some t4 ∧
    resolution_reason (approved d c t4) = Some "Approved by user" ∧
    user_comments (approved d c t4) = c ∧
    same_request d (approved d c t4) ∧
    pending_decisions s2 !! uuid4 = None ∧
    head (get_decision_history (Some a) limit s2).1 =
      Some (history_entry (approved d c t4) t5).
Proof.
  intros Hglobal Hover Hne Hlim d s1. subst s1.
  rewrite create_decision_pending
    by (by rewrite is_hitl_required_eq, Hglobal, Hover).
  cbn zeta. cbn [snd]. fold d.
  eexists. split.
  { apply approve_decision_pending. cbn. apply lookup_insert_eq. }
  split_and!; try done.
  - rewrite get_decision_eq. unfold find_decision.
    cbn [fst resolve_with pending_decisions resolved_decisions].
    by rewrite lookup_delete_eq, lookup_insert_eq.
  - cbn [resolve_with pending_decisions]. apply lookup_delete_eq.
  - unfold get_decision_history, bind, gets, ret.
    cbn [fst resolve_with decision_history truthy].
    rewrite bool_decide_eq_false_2 by done. cbn [negb].
    change (take 1000 (?x :: ?l)) with (x :: take 999 l).
    rewrite filter_cons_True by done.
    unfold slice_to. rewrite (proj2 (Z.leb_le 0 limit)) by lia.
    destruct (Z.to_nat limit) as [| n] eqn:Hn; [lia | done].
Qed.

Lemma request_then_approve_witness :
  global_autonomous_mode gating_manager = false ∧
  agent_hitl_overrides gating_manager !! "portfolio" = Some true ∧
  "portfolio" ≠ "" ∧ (0 < 10)%Z ∧
  (approve_decision "d-1" (Some "ok") 110%Z 111%Z pending_request.2).1
    = true.
Proof.
  split; [reflexivity |]. split; [reflexivity |].
  split; [discriminate |]. split; [lia |].
  destruct (request_then_approve "portfolio" "allocation"
              [("risk", "High")] "Portfolio allocation" "default_user" 5
              "d-1" (Some "ok") 100%Z 101%Z 102%Z 110%Z 111%Z 10
              gating_manager eq_refl eq_refl ltac:(discriminate)
              ltac:(lia))
    as (s2 & Hrun & _).
  unfold pending_request. rewrite Hrun. reflexivity.
Defined.

(** ** More invariants over sequences of calls *)

Lemma terminal_not_pending (st : HITLStatus) : terminal st → st ≠ PENDING.
Proof.
  unfold terminal. rewrite !elem_of_cons, elem_of_nil.
  intuition congruence.
Qed.

(** X8.  After any sequence of calls from the empty manager (each
    [create_decision] drawing an unused id), every entry of the history is
    the timestamped dictionary of a decision that sits in the resolved
    index under the entry's id: its status is [APPROVED], [REJECTED],
    [TIMEOUT] or [BYPASSED], never [PENDING], its [resolved_at] is set, and
    [get_decision] with its id returns the entry without the timestamp. *)
Theorem history_records_resolved_decisions (ops : list Op) :
  fresh_uuids ops HITLManager_init = true →
  let s := run ops HITLManager_init in
  ∀ e, e ∈ decision_history s →
    ∃ d t, resolved_decisions s !! k_decision_id e = Some d ∧
      e = set_timestamp t (to_dict d) ∧
      terminal (k_status e) ∧
      k_status e ≠ PENDING ∧
      is_Some (k_resolved_at e) ∧
      (get_decision (k_decision_id e) s).1 = Some (to_dict d).
Proof.
  intros Hfresh s e He.
  assert (coordinator_inv s) as [Hp Hr Hdis]
    by (apply run_inv; [done | apply HITLManager_init_inv]).
  assert (store_inv s) as [_ _ Hsnap _].
  { apply run_store_inv;
      [done | apply HITLManager_init_inv | apply store_inv_init]. }
  destruct (Hsnap e He) as (d & t & Hd & Heq).
  destruct (Hr _ _ Hd) as [Hterm Hat].
  exists d, t. split_and!; try done.
  - by rewrite Heq.
  - rewrite Heq. by apply terminal_not_pending.
  - by rewrite Heq.
  - rewrite get_decision_eq. unfold find_decision. cbn [fst].
    destruct (Hdis (k_decision_id e)) as [-> | Hn]; [| congruence].
    by rewrite Hd.
Qed.

Lemma history_records_resolved_decisions_witness :
  fresh_uuids session HITLManager_init = true ∧
  ∀ e, e ∈ decision_history (run session HITLManager_init) →
       k_status e ≠ PENDING.
Proof.
  split; [reflexivity |]. intros e He.
  destruct (history_records_resolved_decisions session eq_refl e He)
    as (d & t & _ & _ & _ & Hst & _).
  exact Hst.
Defined.

(** X9.  After any such sequence the history has one entry for each
    resolved decision, up to the cap: its length is the smaller of 1000
    and the size of the resolved index. *)
Theorem history_length_counts_resolved (ops : list Op) :
  fresh_uuids ops HITLManager_init = true →
  let s := run ops HITLManager_init in
  length (decision_history s) = min 1000 (size (resolved_decisions s)).
Proof.
  intros Hfresh s.
  assert (store_inv s) as [_ _ _ Hlen]; [| done].
  apply run_store_inv;
    [done | apply HITLManager_init_inv | apply store_inv_init].
Qed.

Lemma history_length_counts_resolved_witness :
  fresh_uuids session HITLManager_init = true ∧
  length (decision_history (run session HITLManager_init)) = 2.
Proof.
  split; [reflexivity |].
  rewrite (history_length_counts_resolved session eq_refl). reflexivity.
Defined.

Lemma change_same_request (s s' : HITLManager) (i : string)
    (d : HITLDecision) :
  change s s' → coordinator_inv s →
  find_decision s i = Some d →
  ∃ d', find_decision s' i = Some d' ∧ same_request d d'.
Proof.
  intros Hch [Hp Hr Hdis] Hfind. unfold find_decision in *.
  destruct Hch as [g o | j e e' now He Hform
                  | a ty data descr u ts uuid4 t1 t2 t3 Hfresh
                  | a ty data descr u ts uuid4 t1 Hfresh];
    cbn [pending_decisions resolved_decisions resolve_with].
  - by exists d.
  - destruct (decide (j = i)) as [-> | Hne].
    + rewrite lookup_delete_eq, lookup_insert_eq.
      rewrite He in Hfind. injection Hfind as <-.
      exists e'. split; [done | by apply resolved_form_same_request].
    + rewrite lookup_delete_ne, lookup_insert_ne by done. by exists d.
  - apply unused_spec in Hfresh as [Hfp Hfr].
    destruct (decide (uuid4 = i)) as [-> | Hne].
    + by rewrite Hfp, Hfr in Hfind.
    + rewrite lookup_insert_ne by done. by exists d.
  - apply unused_spec in Hfresh as [Hfp Hfr].
    destruct (decide (uuid4 = i)) as [-> | Hne].
    + by rewrite Hfp, Hfr in Hfind.
    + rewrite lookup_insert_ne by done. by exists d.
Qed.

Lemma run_same_request (ops : list Op) (s : HITLManager) (i : string)
    (d : HITLDecision) :
  fresh_uuids ops s = true → coordinator_inv s →
  find_decision s i = Some d →
  ∃ d', find_decision (run ops s) i = Some d' ∧ same_request d d'.
Proof.
  revert s d. induction ops as [| op ops IH]; intros s d Hfresh Hinv Hfind.
  - by exists d.
  - cbn in Hfresh |- *. apply andb_true_iff in Hfresh as [Hop Hrest].
    destruct (change_same_request s (exec op s) i d (exec_change op s Hop)
                Hinv Hfind) as (d1 & Hfind1 & Hsame1).
    destruct (IH (exec op s) d1 Hrest
                (effect_inv _ _ (exec_effect op s Hop) Hinv) Hfind1)
      as (d2 & Hfind2 & Hsame2).
    exists d2. split; [done | by eapply same_request_trans].
Qed.

(** X10.  After any such sequence every stored decision sits under its own
    id, and over any further sequence of calls it stays stored under that
    id with the request unchanged: id, agent, type, data, description,
    creation time, user and timeout are those it was created with.  Only
    status, [resolved_at], the note and the comments are ever written. *)
Theorem request_fields_are_immutable (ops : list Op) :
  fresh_uuids ops HITLManager_init = true →
  let s := run ops HITLManager_init in
  (∀ i d, find_decision s i = Some d → decision_id d = i) ∧
  ∀ ops' i d, fresh_uuids ops' s = true → find_decision s i = Some d →
    ∃ d', find_decision (run ops' s) i = Some d' ∧ same_request d d'.
Proof.
  intros Hfresh s.
  assert (coordinator_inv s) as Hinv
    by (apply run_inv; [done | apply HITLManager_init_inv]).
  assert (store_inv s) as [Hkp Hkr _ _].
  { apply run_store_inv;
      [done | apply HITLManager_init_inv | apply store_inv_init]. }
  split.
  - intros i d. unfold find_decision.
    destruct (pending_decisions s !! i) as [e |] eqn:He.
    + intros [= <-]. eauto.
    + eauto.
  - intros ops' i d Hfresh' Hfind. by apply run_same_request.
Qed.

Lemma request_fields_are_immutable_witness :
  fresh_uuids session HITLManager_init = true ∧
  ∃ d', find_decision
          (run [Reject "d-2" (Some "no") 120%Z 121%Z]
             (run session HITLManager_init)) "d-2" = Some d' ∧
        description d' = "Portfolio allocation".
Proof.
  split; [reflexivity |].
  destruct (request_fields_are_immutable session eq_refl) as [_ Hlater].
  destruct (Hlater [Reject "d-2" (Some "no") 120%Z 121%Z] "d-2"
              (HITLDecision_init "d-2" "portfolio" "allocation"
                 [("risk", "Low")] "Portfolio allocation" PENDING
                 "default_user" 1 103%Z) eq_refl eq_refl)
    as (d' & Hfind & Hsame).
  exists d'. split; [exact Hfind |].
  destruct Hsame as (_ & _ & _ & _ & Hdescr & _). exact Hdescr.
Defined.

Lemma exec_count (op : Op) (s : HITLManager) :
  fresh_uuid op s = true → coordinator_inv s →
  size (pending_decisions (exec op s)) + size (resolved_decisions (exec op s))
  = size (pending_decisions s) + size (resolved_decisions s)
    + (if is_create op then 1 else 0).
Proof.
  intros Hfresh [Hp Hr Hdis].
  assert (∀ i d e now, pending_decisions s !! i = Some d →
    size (pending_decisions (resolve_with i e now s))
    + size (resolved_decisions (resolve_with i e now s))
    = size (pending_decisions s) + size (resolved_decisions s) + 0)
    as Hmove.
  { intros i d e now Hd. cbn [resolve_with pending_decisions
                             resolved_decisions].
    assert (resolved_decisions s !! i = None) as Hri.
    { destruct (Hdis i) as [Hn | Hn]; [congruence | done]. }
    rewrite map_size_delete_Some, map_size_insert_None by done.
    pose proof (map_size_ne_0_lookup_2 (pending_decisions s) i
                  ltac:(by eexists)) as Hsize.
    destruct (size (pending_decisions s)); [done | cbn; clear; lia]. }
  destruct op as [a ty data descr u ts uuid4 t1 t2 t3 | i c t1 t2
                 | i c t1 t2 | i ts t1 t2 | b | a b];
    cbn [fresh_uuid exec is_create] in *.
  - apply unused_spec in Hfresh as [Hfp Hfr].
    destruct (is_hitl_required a s).1 eqn:Hreq.
    + rewrite create_decision_pending by done.
      cbn [snd pending_decisions resolved_decisions].
      rewrite map_size_insert_None by done. lia.
    + rewrite create_decision_bypass by done.
      cbn [snd pending_decisions resolved_decisions].
      rewrite map_size_insert_None by done. lia.
  - destruct (pending_decisions s !! i) as [d|] eqn:Hd.
    + rewrite (approve_decision_pending _ _ _ _ _ d) by done. eauto.
    + rewrite approve_decision_absent by done. cbn [snd]. lia.
  - destruct (pending_decisions s !! i) as [d|] eqn:Hd.
    + rewrite (reject_decision_pending _ _ _ _ _ d) by done. eauto.
    + rewrite reject_decision_absent by done. cbn [snd]. lia.
  - destruct (pending_decisions s !! i) as [d|] eqn:Hd.
    + rewrite (_handle_timeout_pending _ _ _ _ _ d) by done. eauto.
    + rewrite _handle_timeout_absent by done. cbn [snd]. lia.
  - cbn. lia.
  - cbn. lia.
Qed.

Lemma run_count (ops : list Op) (s : HITLManager) :
  fresh_uuids ops s = true → coordinator_inv s →
  size (pending_decisions (run ops s)) + size (resolved_decisions (run ops s))
  = size (pending_decisions s) + size (resolved_decisions s) + creates ops.
Proof.
  revert s. induction ops as [| op ops IH]; intros s Hfresh Hinv.
  - cbn. lia.
  - cbn in Hfresh. apply andb_true_iff in Hfresh as [Hop Hrest].
    cbn [run]. rewrite IH;
      [| done | eapply effect_inv; [by apply exec_effect | done]].
    rewrite exec_count by done. unfold creates.
    rewrite filter_cons.
    destruct (is_create op);
      [rewrite decide_True by done | rewrite decide_False by (by intros [])];
      cbn [length]; lia.
Qed.

(** X11.  No decision is lost or counted twice: after any sequence of
    calls from the empty manager (each [create_decision] drawing an unused
    id), the pending and the resolved index together hold exactly as many
    decisions as [create_decision] was called; approvals, rejections and
    timeouts only move them. *)
Theorem decisions_are_conserved (ops : list Op) :
  fresh_uuids ops HITLManager_init = true →
  let s := run ops HITLManager_init in
  size (pending_decisions s) + size (resolved_decisions s) = creates ops.
Proof.
  intros Hfresh s. subst s.
  rewrite run_count by (done || apply HITLManager_init_inv).
  cbn. by rewrite !map_size_empty.
Qed.

Lemma decisions_are_conserved_witness :
  fresh_uuids session HITLManager_init = true ∧
  size (pending_decisions (run session HITLManager_init))
  + size (resolved_decisions (run session HITLManager_init)) = 3.
Proof.
  split; [reflexivity |].
  rewrite (decisions_are_conserved session eq_refl). reflexivity.
Defined.

(** What a resolving call does, by its target. *)
Lemma exec_resolving (op : Op) (i : string) (s : HITLManager) :
  target op = Some i →
  exec op s =
  match pending_decisions s !! i with
  | Some d => resolve_with i (resolved_as op d) (logged_at op) s
  | None => s
  end.
Proof.
  destruct op as [a ty data descr u ts uuid4 t1 t2 t3 | j c t1 t2
                 | j c t1 t2 | j ts t1 t2 | b | a b];
    cbn [target]; intros [= <-]; cbn [exec resolved_as logged_at];
    destruct (pending_decisions s !! j) as [d|] eqn:Hd.
  - by rewrite (approve_decision_pending _ _ _ _ _ d).
  - by rewrite approve_decision_absent.
  - by rewrite (reject_decision_pending _ _ _ _ _ d).
  - by rewrite reject_decision_absent.
  - by rewrite (_handle_timeout_pending _ _ _ _ _ d).
  - by rewrite _handle_timeout_absent.
Qed.

(** X12.  Two resolving calls (approvals, rejections, timeout firings in
    any mix) on different ids commute on the indices: in either order the
    pending index, the resolved index and the policy come out the same,
    and the two histories hold the same entries, in the order of the
    calls. *)
Theorem resolutions_on_different_ids_commute (op1 op2 : Op) (i j : string)
    (s : HITLManager) :
  target op1 = Some i → target op2 = Some j → i ≠ j →
  let s12 := exec op2 (exec op1 s) in
  let s21 := exec op1 (exec op2 s) in
  pending_decisions s12 = pending_decisions s21 ∧
  resolved_decisions s12 = resolved_decisions s21 ∧
  global_autonomous_mode s12 = global_autonomous_mode s21 ∧
  agent_hitl_overrides s12 = agent_hitl_overrides s21 ∧
  decision_history s12 ≡ₚ decision_history s21.
Proof.
  intros H1 H2 Hne s12 s21. subst s12 s21.
  rewrite (exec_resolving op1 i s H1), (exec_resolving op2 j s H2).
  destruct (pending_decisions s !! i) as [di |] eqn:Hi;
    destruct (pending_decisions s !! j) as [dj |] eqn:Hj.
  - rewrite (exec_resolving op2 j _ H2), (exec_resolving op1 i _ H1).
    cbn [resolve_with pending_decisions].
    rewrite !lookup_delete_ne by done. rewrite Hi, Hj.
    cbn [resolve_with pending_decisions resolved_decisions decision_history
         global_autonomous_mode agent_hitl_overrides].
    split_and!; try done.
    + apply delete_delete.
    + by apply insert_insert_ne.
    + change (take 1000 (?x :: ?l)) with (x :: take 999 l).
      rewrite !take_take. cbn [min Nat.min]. apply Permutation_swap.
  - rewrite (exec_resolving op2 j _ H2), (exec_resolving op1 i _ H1).
    cbn [resolve_with pending_decisions].
    rewrite lookup_delete_ne by done. by rewrite Hi, Hj.
  - rewrite (exec_resolving op2 j _ H2), (exec_resolving op1 i _ H1).
    cbn [resolve_with pending_decisions].
    rewrite lookup_delete_ne by done. by rewrite Hi, Hj.
  - rewrite (exec_resolving op2 j _ H2), (exec_resolving op1 i _ H1).
    by rewrite Hi, Hj.
Qed.

Lemma resolutions_on_different_ids_commute_witness :
  target (Approve "d-1" (Some "ok") 120%Z 121%Z) = Some "d-1" ∧
  target (TimeoutFires "d-2" 1 122%Z 123%Z) = Some "d-2" ∧
  "d-1" ≠ "d-2" ∧
  resolved_decisions
    (exec (TimeoutFires "d-2" 1 122%Z 123%Z)
       (exec (Approve "d-1" (Some "ok") 120%Z 121%Z)
          (run session HITLManager_init)))
  = resolved_decisions
      (exec (Approve "d-1" (Some "ok") 120%Z 121%Z)
         (exec (TimeoutFires "d-2" 1 122%Z 123%Z)
            (run session HITLManager_init))).
Proof.
  split; [reflexivity |]. split; [reflexivity |]. split; [discriminate |].
  exact (proj1 (proj2 (resolutions_on_different_ids_commute
                         (Approve "d-1" (Some "ok") 120%Z 121%Z)
                         (TimeoutFires "d-2" 1 122%Z 123%Z) "d-1" "d-2"
                         (run session HITLManager_init) eq_refl eq_refl
                         ltac:(discriminate)))).
Defined.

(** ** The agent base class *)

(** What the setters of an agent keep: the timeout floor, the agent's id,
    the agreement of its [hitl_enabled] with the manager's override for
    that id, and everything of the manager but the overrides. *)
Lemma agent_calls_keep (cs : list Agent.Setter)
    (self : Agent.HITLEnhancedAgent) (s : HITLManager) :
  (30 ≤ Agent.hitl_timeout_seconds self)%Z →
  agent_hitl_overrides s !! Agent.agent_id self
    = Some (Agent.hitl_enabled self) →
  let self' := (Agent.calls cs self s).1 in
  let s' := (Agent.calls cs self s).2 in
  (30 ≤ Agent.hitl_timeout_seconds self')%Z ∧
  Agent.agent_id self' = Agent.agent_id self ∧
  agent_hitl_overrides s' !! Agent.agent_id self
    = Some (Agent.hitl_enabled self') ∧
  pending_decisions s' = pending_decisions s ∧
  resolved_decisions s' = resolved_decisions s ∧
  decision_history s' = decision_history s ∧
  global_autonomous_mode s' = global_autonomous_mode s.
Proof.
  revert self s. induction cs as [| c cs IH]; intros self s Hts Hsync;
    [done |].
  cbn [Agent.calls].
  destruct c as [b | b | ts]; cbn [Agent.call].
  - unfold Agent.set_hitl_enabled, bind, ret, set_agent_hitl_override,
      modify. cbn [Agent.agent_id].
    specialize (IH (Agent.mkHITLEnhancedAgent (Agent.agent_id self)
                      (Agent.agent_name self) b
                      (Agent.autonomous_mode self)
                      (Agent.hitl_timeout_seconds self))
                   (mkHITLManager (pending_decisions s)
                      (resolved_decisions s) (decision_history s)
                      (global_autonomous_mode s)
                      (<[Agent.agent_id self := b]>
                         (agent_hitl_overrides s)))
                   Hts).
    cbn in IH. apply IH. apply lookup_insert_eq.
  - unfold Agent.set_autonomous_mode, ret.
    exact (IH (Agent.mkHITLEnhancedAgent (Agent.agent_id self)
                 (Agent.agent_name self) (Agent.hitl_enabled self) b
                 (Agent.hitl_timeout_seconds self)) s Hts Hsync).
  - unfold Agent.set_hitl_timeout, ret.
    exact (IH (Agent.mkHITLEnhancedAgent (Agent.agent_id self)
                 (Agent.agent_name self) (Agent.hitl_enabled self)
                 (Agent.autonomous_mode self) (Z.max 30 ts)) s
              ltac:(cbn; lia) Hsync).
Qed.

Lemma agent_init_eq (a name : string) (s : HITLManager) :
  Agent.__init__ a name s =
  (Agent.mkHITLEnhancedAgent a name false true 300,
   mkHITLManager (pending_decisions s) (resolved_decisions s)
     (decision_history s) (global_autonomous_mode s)
     (<[a := false]> (agent_hitl_overrides s))).
Proof. reflexivity. Qed.

Lemma request_hitl_approval_eq (self : Agent.HITLEnhancedAgent)
    (ty : string) (data : payload) (descr u uuid4 : string)
    (t1 t2 t3 : datetime) (s : HITLManager) :
  Agent.request_hitl_approval self ty data descr u uuid4 t1 t2 t3 s =
  create_decision (Agent.agent_id self) ty data descr u
    (Agent.hitl_timeout_seconds self) uuid4 t1 t2 t3 s.
Proof.
  unfold Agent.request_hitl_approval.
  destruct (negb (Agent.hitl_enabled self) || Agent.autonomous_mode self);
    [done |].
  unfold bind, ret.
  by destruct (create_decision _ _ _ _ _ _ _ _ _ _ s).
Qed.

Lemma create_decision_fields (a ty : string) (data : payload)
    (descr u : string) (ts : Z) (uuid4 : string) (t1 t2 t3 : datetime)
    (s : HITLManager) :
  let d := (create_decision a ty data descr u ts uuid4 t1 t2 t3 s).1 in
  same_request (HITLDecision_init uuid4 a ty data descr PENDING u ts t1) d ∧
  status d = (if (is_hitl_required a s).1 then PENDING else BYPASSED).
Proof.
  destruct (is_hitl_required a s).1 eqn:Hreq.
  - by rewrite create_decision_pending.
  - by rewrite create_decision_bypass.
Qed.

(** X13.  An agent built by [__init__] and configured by any sequence of
    [set_hitl_enabled], [set_autonomous_mode] and [set_hitl_timeout] calls
    has a timeout of at least 30 seconds, whatever was asked for, and every
    decision it obtains from [request_hitl_approval] carries that timeout,
    the agent's id and the type, data, description and user given.  The
    setters leave the decisions, the history and the global flag of the
    manager alone. *)
Theorem agent_timeout_floor (a name : string) (cs : list Agent.Setter)
    (s : HITLManager) :
  let self0 := (Agent.__init__ a name s).1 in
  let s0 := (Agent.__init__ a name s).2 in
  let self := (Agent.calls cs self0 s0).1 in
  let s' := (Agent.calls cs self0 s0).2 in
  (30 ≤ Agent.hitl_timeout_seconds self)%Z ∧
  Agent.agent_id self = a ∧
  pending_decisions s' = pending_decisions s ∧
  resolved_decisions s' = resolved_decisions s ∧
  decision_history s' = decision_history s ∧
  global_autonomous_mode s' = global_autonomous_mode s ∧
  ∀ ty data descr u uuid4 t1 t2 t3 s'',
    let d := (Agent.request_hitl_approval self ty data descr u uuid4
                t1 t2 t3 s'').1 in
    (30 ≤ timeout_seconds d)%Z ∧
    timeout_seconds d = Agent.hitl_timeout_seconds self ∧
    agent_id d = a ∧ decision_type d = ty ∧ decision_data d = data ∧
    description d = descr ∧ user_id d = u ∧ decision_id d = uuid4.
Proof.
  intros self0 s0 self s'. subst self0 s0 self s'.
  rewrite agent_init_eq. cbn [fst snd].
  destruct (agent_calls_keep cs
              (Agent.mkHITLEnhancedAgent a name false true 300)
              (mkHITLManager (pending_decisions s) (resolved_decisions s)
                 (decision_history s) (global_autonomous_mode s)
                 (<[a := false]> (agent_hitl_overrides s))))
    as (Hts & Hid & _ & Hp & Hr & Hh & Hg).
  { cbn. lia. }
  { cbn. apply lookup_insert_eq. }
  cbn [Agent.agent_id] in Hid.
  split_and!; [exact Hts | exact Hid | exact Hp | exact Hr | exact Hh
              | exact Hg |].
  intros ty data descr u uuid4 t1 t2 t3 s''. cbn zeta.
  rewrite request_hitl_approval_eq.
  destruct (create_decision_fields
              (Agent.agent_id (Agent.calls cs
                 (Agent.mkHITLEnhancedAgent a name false true 300)
                 (mkHITLManager (pending_decisions s)
                    (resolved_decisions s) (decision_history s)
                    (global_autonomous_mode s)
                    (<[a := false]> (agent_hitl_overrides s)))).1)
              ty data descr u
              (Agent.hitl_timeout_seconds (Agent.calls cs
                 (Agent.mkHITLEnhancedAgent a name false true 300)
                 (mkHITLManager (pending_decisions s)
                    (resolved_decisions s) (decision_history s)
                    (global_autonomous_mode s)
                    (<[a := false]> (agent_hitl_overrides s)))).1)
              uuid4 t1 t2 t3 s'')
    as [(Hi & Ha & Hty & Hdata & Hdescr & _ & Hu & Hto) _].
  cbn in Hi, Ha, Hty, Hdata, Hdescr, Hu, Hto.
  rewrite Hto. split_and!; try done. by rewrite Ha.
Qed.

(** X14.  For such an agent the manager's override for its id always
    equals its [hitl_enabled], so the decision [request_hitl_approval]
    returns is [PENDING] exactly when the agent has [hitl_enabled] and the
    manager's global flag is false, and [BYPASSED] otherwise: the agent's
    own [autonomous_mode] has no part in it.  An agent just built is never
    gated. *)
Theorem agent_request_follows_manager_policy (a name : string)
    (cs : list Agent.Setter) (s : HITLManager) :
  let self0 := (Agent.__init__ a name s).1 in
  let s0 := (Agent.__init__ a name s).2 in
  let self := (Agent.calls cs self0 s0).1 in
  let s' := (Agent.calls cs self0 s0).2 in
  agent_hitl_overrides s' !! a = Some (Agent.hitl_enabled self) ∧
  (∀ ty data descr u uuid4 t1 t2 t3,
     status (Agent.request_hitl_approval self ty data descr u uuid4
               t1 t2 t3 s').1 =
     if Agent.hitl_enabled self && negb (global_autonomous_mode s)
     then PENDING else BYPASSED) ∧
  (∀ ty data descr u uuid4 t1 t2 t3,
     status (Agent.request_hitl_approval self0 ty data descr u uuid4
               t1 t2 t3 s0).1 = BYPASSED).
Proof.
  intros self0 s0 self s'. subst self0 s0 self s'.
  rewrite agent_init_eq. cbn [fst snd].
  destruct (agent_calls_keep cs
              (Agent.mkHITLEnhancedAgent a name false true 300)
              (mkHITLManager (pending_decisions s) (resolved_decisions s)
                 (decision_history s) (global_autonomous_mode s)
                 (<[a := false]> (agent_hitl_overrides s))))
    as (_ & Hid & Hsync & _ & _ & _ & Hg).
  { cbn. lia. }
  { cbn. apply lookup_insert_eq. }
  cbn [Agent.agent_id global_autonomous_mode] in Hid, Hsync, Hg.
  split_and!.
  - done.
  - intros ty data descr u uuid4 t1 t2 t3.
    rewrite request_hitl_approval_eq.
    match goal with
    | |- status (create_decision ?a' ?ty' ?data' ?descr' ?u' ?ts' ?i' ?x1
                   ?x2 ?x3 ?s').1 = _ =>
        destruct (create_decision_fields a' ty' data' descr' u' ts' i' x1
                    x2 x3 s') as [_ ->]
    end.
    rewrite is_hitl_required_eq. cbn [fst]. rewrite Hg, Hid, Hsync.
    destruct (global_autonomous_mode s),
      (Agent.hitl_enabled (Agent.calls cs _ _).1); done.
  - intros ty data descr u uuid4 t1 t2 t3.
    rewrite request_hitl_approval_eq.
    match goal with
    | |- status (create_decision ?a' ?ty' ?data' ?descr' ?u' ?ts' ?i' ?x1
                   ?x2 ?x3 ?s').1 = _ =>
        destruct (create_decision_fields a' ty' data' descr' u' ts' i' x1
                    x2 x3 s') as [_ ->]
    end.
    rewrite is_hitl_required_eq.
    cbn [fst Agent.agent_id global_autonomous_mode agent_hitl_overrides].
    rewrite lookup_insert_eq. by destruct (global_autonomous_mode s).
Qed.

(** ** The portfolio workflows *)

Lemma lt_number_spec (x y : number) : lt_number x y = true ↔ (x < y)%Q.
Proof.
  unfold lt_number. destruct (Qlt_le_dec x y) as [Hlt | Hle].
  - done.
  - split; [done |]. intros Hlt. exfalso. by apply (Qlt_not_le x y).
Qed.

(** X15.  [should_request_hitl] of the HITL portfolio agent answers false
    for an agent that has HITL disabled or is autonomous, whatever the
    portfolio.  For an enabled, non-autonomous agent it answers true
    exactly when the risk score is above 2.5, the budget above 100000, the
    diversification score below 60 or the expected return above 20, a
    missing key counting as 0, 100 and 0: so a budget above 100000 alone
    always asks for review, and a portfolio without these keys asks for it
    only then. *)
Theorem should_request_hitl_spec (self : Agent.HITLEnhancedAgent)
    (st : HITLPortfolio.PortfolioOptimizerState) :
  let portfolio := HITLPortfolio.final_portfolio st in
  (Agent.hitl_enabled self = false ∨ Agent.autonomous_mode self = true →
   HITLPortfolioNodes.should_request_hitl self st = false) ∧
  (Agent.hitl_enabled self = true → Agent.autonomous_mode self = false →
   (HITLPortfolioNodes.should_request_hitl self st = true ↔
    (5 # 2 < default 0 (portfolio !! "risk_score"))%Q ∨
    (100000 < HITLPortfolio.budget st)%Q ∨
    (default 100 (portfolio !! "diversification_score") < 60)%Q ∨
    (20 < default 0 (portfolio !! "expected_return"))%Q) ∧
   (portfolio = ∅ →
    HITLPortfolioNodes.should_request_hitl self st =
    lt_number 100000%Q (HITLPortfolio.budget st))).
Proof.
  intros portfolio. split.
  - unfold HITLPortfolioNodes.should_request_hitl.
    intros [-> | ->]; [done |]. by rewrite orb_true_r.
  - intros Hen Hauto. unfold HITLPortfolioNodes.should_request_hitl.
    rewrite Hen, Hauto. cbn [negb orb]. fold portfolio. split.
    + rewrite <- !lt_number_spec.
      destruct (lt_number (5 # 2)%Q _); [intuition |].
      destruct (lt_number 100000%Q _); [intuition |].
      destruct (lt_number _ 60%Q); [intuition |].
      destruct (lt_number 20%Q _); intuition congruence.
    + intros ->. rewrite !lookup_empty. cbn [default].
      by destruct (lt_number 100000%Q _).
Qed.

Lemma should_request_hitl_spec_witness :
  Agent.hitl_enabled (Agent.mkHITLEnhancedAgent "p" "P" true false 300)
    = true ∧
  Agent.autonomous_mode (Agent.mkHITLEnhancedAgent "p" "P" true false 300)
    = false ∧
  HITLPortfolio.final_portfolio suspended_state = ∅ ∧
  HITLPortfolioNodes.should_request_hitl
    (Agent.mkHITLEnhancedAgent "p" "P" true false 300) suspended_state
    = true ∧
  HITLPortfolioNodes.should_request_hitl
    (Agent.mkHITLEnhancedAgent "p" "P" true true 300) suspended_state
    = false.
Proof.
  split; [reflexivity |]. split; [reflexivity |]. split; [reflexivity |].
  destruct (should_request_hitl_spec
              (Agent.mkHITLEnhancedAgent "p" "P" true false 300)
              suspended_state) as [_ Hen].
  destruct (Hen eq_refl eq_refl) as [_ Hempty].
  destruct (should_request_hitl_spec
              (Agent.mkHITLEnhancedAgent "p" "P" true true 300)
              suspended_state) as [Hoff _].
  split; [rewrite (Hempty eq_refl); reflexivity |].
  apply Hoff. right. reflexivity.
Defined.

(** X16.  In the HITL portfolio graph, when the agent has HITL disabled or
    is autonomous, the optimize node returns a state that does not ask for
    approval and the run goes on with [finalize_portfolio] and
    [log_decision] and ends there: neither [request_hitl_approval] nor
    [wait_for_hitl_decision] runs, and no decision is requested. *)
Theorem ungated_agent_skips_the_gate
    (base : HITLPortfolio.PortfolioOptimizerState →
            option HITLPortfolio.PortfolioOptimizerState)
    (self : Agent.HITLEnhancedAgent)
    (rest : HITLPortfolio.Node → HITLPortfolio.PortfolioOptimizerState →
            option HITLPortfolio.PortfolioOptimizerState)
    (st st' : HITLPortfolio.PortfolioOptimizerState) (fuel : nat) :
  negb (Agent.hitl_enabled self) || Agent.autonomous_mode self = true →
  HITLPortfolioNodes._optimize_portfolio base self st = Some st' →
  HITLPortfolio.hitl_approval_required st' = false ∧
  next_target HITLPortfolio._create_hitl_graph
    HITLPortfolio.optimize_portfolio st'
    = Some (Goto HITLPortfolio.finalize_portfolio) ∧
  continue_from HITLPortfolio._create_hitl_graph
    (HITLPortfolioNodes.nodes base self rest) (S (S fuel))
    HITLPortfolio.optimize_portfolio st' =
  match rest HITLPortfolio.finalize_portfolio st' with
  | None => Raised
  | Some st2 =>
      match rest HITLPortfolio.log_decision st2 with
      | None => Raised
      | Some st3 => Finished st3
      end
  end.
Proof.
  intros Hoff Hrun. unfold HITLPortfolioNodes._optimize_portfolio in Hrun.
  destruct (base st) as [bs |]; [| done]. injection Hrun as <-.
  unfold HITLPortfolioNodes.should_request_hitl. rewrite Hoff.
  split; [done |]. split; [done |].
  cbn [continue_from HITLPortfolioNodes.nodes].
  change (next_target HITLPortfolio._create_hitl_graph
            HITLPortfolio.optimize_portfolio
            (HITLPortfolioNodes.set_hitl_approval_required false bs))
    with (Some (Goto (Node := HITLPortfolio.Node)
                  HITLPortfolio.finalize_portfolio)).
  cbn match. cbn [HITLPortfolioNodes.nodes].
  destruct (rest HITLPortfolio.finalize_portfolio _) as [st2 |]; [| done].
  change (next_target HITLPortfolio._create_hitl_graph
            HITLPortfolio.finalize_portfolio st2)
    with (Some (Goto (Node := HITLPortfolio.Node)
                  HITLPortfolio.log_decision)).
  cbn match. cbn [HITLPortfolioNodes.nodes].
  destruct (rest HITLPortfolio.log_decision st2) as [st3 |]; [| done].
  by destruct fuel.
Qed.

Lemma ungated_agent_skips_the_gate_witness :
  negb (Agent.hitl_enabled (Agent.mkHITLEnhancedAgent "p" "P" false true 300))
  || Agent.autonomous_mode (Agent.mkHITLEnhancedAgent "p" "P" false true 300)
  = true ∧
  continue_from HITLPortfolio._create_hitl_graph
    (HITLPortfolioNodes.nodes Some
       (Agent.mkHITLEnhancedAgent "p" "P" false true 300) (λ _ st, Some st))
    2 HITLPortfolio.optimize_portfolio
    (HITLPortfolioNodes.set_hitl_approval_required false suspended_state)
  = Finished
      (HITLPortfolioNodes.set_hitl_approval_required false suspended_state).
Proof.
  split; [reflexivity |].
  exact (proj2 (proj2 (ungated_agent_skips_the_gate Some
                         (Agent.mkHITLEnhancedAgent "p" "P" false true 300)
                         (λ _ st, Some st) suspended_state _ 0 eq_refl
                         eq_refl))).
Defined.

(** X17.  [_should_require_hitl_approval] of the ReAct agent answers
    ["hitl_required"] exactly when the risk score is above 2.5, the budget
    above 100000 or the diversification score below 60, a missing key
    counting as 0, and ["no_hitl"] otherwise.  So a portfolio without a
    diversification score, the empty one of the initial state for one,
    is always sent to review, whatever budget and risk are. *)
Theorem should_require_hitl_approval_spec (st : ReAct.AgentState) :
  let portfolio := ReAct.final_portfolio st in
  (ReAct._should_require_hitl_approval st = "hitl_required" ↔
   (5 # 2 < default 0 (portfolio !! "risk_score"))%Q ∨
   (100000 < ReAct.budget st)%Q ∨
   (default 0 (portfolio !! "diversification_score") < 60)%Q) ∧
  (ReAct._should_require_hitl_approval st = "hitl_required" ∨
   ReAct._should_require_hitl_approval st = "no_hitl") ∧
  (portfolio !! "diversification_score" = None →
   ReAct._should_require_hitl_approval st = "hitl_required" ∧
   next_target ReAct._create_graph ReAct.optimize_portfolio st
     = Some (Goto ReAct.hitl_review)).
Proof.
  intros portfolio.
  assert (ReAct._should_require_hitl_approval st =
          if lt_number (5 # 2)%Q (default 0%Q (portfolio !! "risk_score"))
             || lt_number 100000%Q (ReAct.budget st)
             || lt_number (default 0%Q
                             (portfolio !! "diversification_score")) 60%Q
          then "hitl_required" else "no_hitl") as Heq by reflexivity.
  subst portfolio. split_and!.
  - rewrite Heq, <- !lt_number_spec.
    destruct (lt_number (5 # 2)%Q _); [intuition |].
    destruct (lt_number 100000%Q _); [intuition |].
    destruct (lt_number _ 60%Q); cbn; intuition congruence.
  - rewrite Heq. destruct (_ || _ || _); auto.
  - intros Hnone.
    assert (ReAct._should_require_hitl_approval st = "hitl_required")
      as Hlabel.
    { rewrite Heq. unfold number in *. rewrite Hnone. cbn [default].
      replace (lt_number 0%Q 60%Q) with true by reflexivity.
      by rewrite orb_true_r. }
    split; [done |]. unfold next_target. cbn [ReAct._create_graph].
    by rewrite Hlabel.
Qed.

Lemma should_require_hitl_approval_spec_witness :
  ReAct.final_portfolio malformed_request !! "diversification_score" = None ∧
  ReAct._should_require_hitl_approval malformed_request = "hitl_required".
Proof.
  split; [reflexivity |].
  destruct (should_require_hitl_approval_spec malformed_request)
    as (_ & _ & Hmissing).
  exact (proj1 (Hmissing eq_refl)).
Defined.



(** The nodes the engine can go to from a node. *)
Lemma hitl_graph_targets (n : HITLPortfolio.Node)
    (st : HITLPortfolio.PortfolioOptimizerState) :
  ∃ t, next_target HITLPortfolio._create_hitl_graph n st = Some t ∧
       t ≠ Goto HITLPortfolio.process_hitl_decision ∧
       t ≠ Goto HITLPortfolio.analyze_inputs.
Proof.
  destruct n; unfold next_target; cbn [HITLPortfolio._create_hitl_graph];
    try (eexists; split; [reflexivity | split; discriminate]).
  - unfold HITLPortfolio._should_request_hitl_approval.
    destruct (HITLPortfolio.hitl_approval_required st);
      (eexists; split; [reflexivity | split; discriminate]).
  - unfold HITLPortfolio._check_hitl_decision.
    destruct (_ || _); [| destruct (bool_decide _)];
      (eexists; split; [reflexivity | split; discriminate]).
Qed.

(** X19.  In the graph of the HITL portfolio agent every routing function
    returns a label of its map, so the engine always finds where to go;
    no edge leads to [process_hitl_decision], which therefore never runs,
    nor back to the entry [analyze_inputs]; and the engine stops only
    after [log_decision] or at the gate [wait_for_hitl_decision]. *)
Theorem hitl_graph_is_well_formed (n : HITLPortfolio.Node)
    (st : HITLPortfolio.PortfolioOptimizerState) :
  is_Some (next_target HITLPortfolio._create_hitl_graph n st) ∧
  next_target HITLPortfolio._create_hitl_graph n st
    ≠ Some (Goto HITLPortfolio.process_hitl_decision) ∧
  next_target HITLPortfolio._create_hitl_graph n st
    ≠ Some (Goto HITLPortfolio.analyze_inputs) ∧
  (next_target HITLPortfolio._create_hitl_graph n st = Some END →
   n = HITLPortfolio.log_decision ∨ n = HITLPortfolio.wait_for_hitl_decision).
Proof.
  destruct (hitl_graph_targets n st) as (t & Ht & Hdead & Hentry).
  rewrite Ht. split_and!.
  - by eexists.
  - congruence.
  - congruence.
  - intros [= ->]. revert Ht.
    destruct n; unfold next_target; cbn [HITLPortfolio._create_hitl_graph];
      try discriminate; auto.
    unfold HITLPortfolio._should_request_hitl_approval.
    by destruct (HITLPortfolio.hitl_approval_required st).
Qed.

Lemma hitl_graph_is_well_formed_witness :
  next_target HITLPortfolio._create_hitl_graph
    HITLPortfolio.wait_for_hitl_decision suspended_state = Some END ∧
  (HITLPortfolio.wait_for_hitl_decision = HITLPortfolio.log_decision ∨
   HITLPortfolio.wait_for_hitl_decision
     = HITLPortfolio.wait_for_hitl_decision).
Proof.
  split; [reflexivity |].
  exact (proj2 (proj2 (proj2 (hitl_graph_is_well_formed
                                HITLPortfolio.wait_for_hitl_decision
                                suspended_state))) eq_refl).
Defined.

(** X20.  In the graph of the ReAct portfolio agent every routing function
    returns a label of its map, no edge leads back to the entry
    [analyze_inputs], and the engine stops only after [log_decision] or,
    for a state whose [hitl_approved] is unset, after [hitl_review]. *)
Theorem react_graph_is_well_formed (n : ReAct.Node) (st : ReAct.AgentState) :
  is_Some (next_target ReAct._create_graph n st) ∧
  next_target ReAct._create_graph n st ≠ Some (Goto ReAct.analyze_inputs) ∧
  (next_target ReAct._create_graph n st = Some END →
   n = ReAct.log_decision ∨
   (n = ReAct.hitl_review ∧ ReAct.hitl_approved st = None)).
Proof.
  destruct n; unfold next_target; cbn [ReAct._create_graph];
    try (split_and!; [by eexists | discriminate | discriminate || auto]).
  - unfold ReAct._should_require_hitl_approval.
    destruct (_ || _ || _);
      (split_and!; [by eexists | discriminate | discriminate]).
  - unfold ReAct._check_hitl_approval.
    destruct (ReAct.hitl_approved st) as [[] |];
      (split_and!; [by eexists | discriminate | discriminate || auto]).
Qed.

Lemma react_graph_is_well_formed_witness :
  next_target ReAct._create_graph ReAct.hitl_review malformed_request
    = Some END ∧
  ReAct.hitl_approved malformed_request = None.
Proof.
  split; [reflexivity |].
  destruct (proj2 (proj2 (react_graph_is_well_formed ReAct.hitl_review
                            malformed_request)) eq_refl)
    as [Hlog | [_ Hnone]]; [discriminate Hlog | exact Hnone].
Defined.

(** X21.  [process_hitl_decision] of the HITL portfolio agent copies the
    status of the decision into [hitl_approval_status], whatever it is,
    and touches nothing else; the gate then routes the state by that
    status: [APPROVED] and [BYPASSED] to [finalize_portfolio], [REJECTED]
    to [reason_about_strategy], [PENDING] and [TIMEOUT] to [END]. *)
Theorem process_hitl_decision_then_gate (decision : HITLDecision)
    (st : HITLPortfolio.PortfolioOptimizerState) :
  let st' := HITLPortfolioNodes.process_hitl_decision decision st in
  st' = HITLPortfolioNodes.set_hitl_approval_status
          (HITLStatus_value (status decision)) st ∧
  HITLPortfolio.hitl_approval_status st'
    = HITLStatus_value (status decision) ∧
  HITLPortfolio.hitl_decision_id st' = HITLPortfolio.hitl_decision_id st ∧
  HITLPortfolio.hitl_approval_required st'
    = HITLPortfolio.hitl_approval_required st ∧
  HITLPortfolio.final_portfolio st' = HITLPortfolio.final_portfolio st ∧
  HITLPortfolio.reasoning_trace st' = HITLPortfolio.reasoning_trace st ∧
  next_target HITLPortfolio._create_hitl_graph
    HITLPortfolio.wait_for_hitl_decision st' =
  Some match status decision with
       | APPROVED | BYPASSED => Goto HITLPortfolio.finalize_portfolio
       | REJECTED => Goto HITLPortfolio.reason_about_strategy
       | PENDING | TIMEOUT => END
       end.
Proof.
  intros st'.
  assert (st' = HITLPortfolioNodes.set_hitl_approval_status
                  (HITLStatus_value (status decision)) st) as ->.
  { subst st'. unfold HITLPortfolioNodes.process_hitl_decision.
    by destruct (status decision). }
  split_and!; try done. by apply gate_next.
Qed.
